(** * Auth0 client library: request runtime and ID-token validator

    A shallow embedding of
      - [IDTokenValidator.validate] (the ID-token claim pipeline), and
      - [BaseAPI] of [src/lib/runtime.ts] ([request], [createFetchParams],
        [fetchWithTimeout], [fetch], [querystring]),
    followed by the properties established about them.

    Conventions.  JavaScript values are [JS.JsValue]; a JavaScript number
    is an integer of [Z] (epoch seconds, status codes, counters: the
    values on which double arithmetic is exact).  Strings are byte
    strings holding UTF-8.  Plain objects used as dictionaries are
    [gmap string _]; a property that is absent reads as [JUndefined].
    A computation that may [throw] returns a [Completion]. *)

From Stdlib Require Import ZArith Lia Ascii.
From stdpp Require Import base option list strings gmap pretty.

Set Warnings "-register-all".

Local Open Scope string_scope.
Local Open Scope Z_scope.

(** ** Completions: normal return or thrown value *)

Inductive Completion (E A : Type) : Type :=
| Normal (a : A)
| Throw (e : E).
Arguments Normal {E A} a.
Arguments Throw {E A} e.

#[global] Instance Completion_ret {E} : MRet (Completion E) :=
  fun A a => Normal a.

#[global] Instance Completion_bind {E} : MBind (Completion E) :=
  fun A B k c => match c with Normal a => k a | Throw e => Throw e end.

(** [if (c) throw e;] *)
Definition throwIf {E} (c : bool) (e : E) : Completion E unit :=
  if c then Throw e else Normal tt.

Definition isNormal {E A} (c : Completion E A) : bool :=
  match c with Normal _ => true | Throw _ => false end.

(** * JavaScript values *)

Module JS.

Inductive JsValue : Type :=
| JUndefined
| JNull
| JBool (b : bool)
| JNumber (n : Z)
| JString (s : string)
| JArray (items : list JsValue)
| JObject (props : list (string * JsValue)).

(** [typeof v] *)
Inductive JsType := TUndefined | TObject | TBoolean | TNumber | TString.

Definition typeof (v : JsValue) : JsType :=
  match v with
  | JUndefined => TUndefined
  | JNull | JArray _ | JObject _ => TObject
  | JBool _ => TBoolean
  | JNumber _ => TNumber
  | JString _ => TString
  end.

Definition is_string (v : JsValue) : bool :=
  match typeof v with TString => true | _ => false end.

Definition is_number (v : JsValue) : bool :=
  match typeof v with TNumber => true | _ => false end.

(** ToBoolean: [undefined], [null], [false], [0] and [""] are falsy. *)
Definition truthy (v : JsValue) : bool :=
  match v with
  | JUndefined | JNull => false
  | JBool b => b
  | JNumber n => negb (n =? 0)
  | JString s => negb (bool_decide (s = ""))
  | JArray _ | JObject _ => true
  end.

(** [Array.isArray v] *)
Definition isArray (v : JsValue) : bool :=
  match v with JArray _ => true | _ => false end.

(** [v === false] *)
Definition is_false (v : JsValue) : bool :=
  match v with JBool false => true | _ => false end.

(** [v === s] for a string [s] (strict equality as well as the
    SameValueZero test of [Array.prototype.includes]). *)
Definition eq_string (v : JsValue) (s : string) : bool :=
  match v with JString t => bool_decide (t = s) | _ => false end.

(** [arr.includes(s)] for a string [s] *)
Definition includes (items : list JsValue) (s : string) : bool :=
  existsb (fun v => eq_string v s) items.

(** [o.k] on a plain object: an absent property reads [undefined]. *)
Definition get (o : gmap string JsValue) (k : string) : JsValue :=
  default JUndefined (o !! k).

(** The elements of an array, the number behind a numeric value, and an
    optional string or number argument as the value it is at run time. *)
Definition arrayItems (v : JsValue) : list JsValue :=
  match v with JArray items => items | _ => [] end.

Definition numberOf (v : JsValue) : Z :=
  match v with JNumber n => n | _ => 0 end.

Definition ofString (o : option string) : JsValue :=
  match o with Some s => JString s | None => JUndefined end.

Definition ofNumber (o : option Z) : JsValue :=
  match o with Some n => JNumber n | None => JUndefined end.

(** [parts.join(sep)] on strings *)
Fixpoint join (sep : string) (parts : list string) : string :=
  match parts with
  | [] => ""
  | [p] => p
  | p :: rest => p +:+ sep +:+ join sep rest
  end.

(** [s.includes(c)] and the last character of [s], for a character
    [c]. *)
Fixpoint contains (c : ascii) (s : string) : bool :=
  match s with
  | EmptyString => false
  | String a rest => bool_decide (a = c) || contains c rest
  end.

Fixpoint lastChar (s : string) : option ascii :=
  match s with
  | EmptyString => None
  | String a EmptyString => Some a
  | String _ rest => lastChar rest
  end.

(** [s.startsWith(p)] and [s.includes(p)] for a string [p] *)
Fixpoint startsWith (p s : string) : bool :=
  match p, s with
  | EmptyString, _ => true
  | String a p', String b s' => bool_decide (a = b) && startsWith p' s'
  | String _ _, EmptyString => false
  end.

Fixpoint includesString (p s : string) : bool :=
  startsWith p s
  || match s with
     | EmptyString => false
     | String _ s' => includesString p s'
     end.

(** [String(v)].  Inside [Array.prototype.join] (and so inside the
    string form of an array) [undefined] and [null] give the empty
    string. *)
Fixpoint toString (v : JsValue) : string :=
  match v with
  | JUndefined => "undefined"
  | JNull => "null"
  | JBool true => "true"
  | JBool false => "false"
  | JNumber n => pretty n
  | JString s => s
  | JArray items =>
      join "," (map (fun x => match x with
                              | JUndefined | JNull => ""
                              | _ => toString x
                              end) items)
  | JObject _ => "[object Object]"
  end.

Definition joinElement (v : JsValue) : string :=
  match v with JUndefined | JNull => "" | _ => toString v end.

(** [arr.join(sep)] *)
Definition joinArray (sep : string) (items : list JsValue) : string :=
  join sep (map joinElement items).

(** [v === null || v === undefined] and [v === undefined] *)
Definition isNullish (v : JsValue) : bool :=
  match v with JUndefined | JNull => true | _ => false end.

Definition isUndefined (v : JsValue) : bool :=
  match v with JUndefined => true | _ => false end.

(** The number of occurrences of the character [c] in [s]. *)
Fixpoint countChar (c : ascii) (s : string) : nat :=
  match s with
  | EmptyString => 0%nat
  | String a rest => ((if bool_decide (a = c) then 1 else 0) + countChar c rest)%nat
  end.

(** [s.slice(n)] *)
Fixpoint dropChars (n : nat) (s : string) : string :=
  match n, s with
  | O, _ => s
  | S _, EmptyString => EmptyString
  | S n', String _ rest => dropChars n' rest
  end.

(** [s.replace(pattern, replacement)] for a string [pattern] and a
    [replacement] that holds no dollar sign (a dollar sign starts a
    replacement pattern): the first occurrence is replaced. *)
Fixpoint replaceFirst (pattern replacement s : string) : string :=
  if startsWith pattern s
  then replacement +:+ dropChars (String.length pattern) s
  else match s with
       | EmptyString => EmptyString
       | String a rest => String a (replaceFirst pattern replacement rest)
       end.

End JS.

(** * The ID-token validator *)

Module IdToken.
Import JS.

(** [const DEFAULT_CLOCK_TOLERANCE = 60; // secs] *)
Definition DEFAULT_CLOCK_TOLERANCE : Z := 60.

(** The fields of [Options] that the constructor reads.  An optional
    field that is absent is [None]. *)
Record Options := {
  domain : string;
  clientId : string;
  clientSecret : option string;
  idTokenSigningAlg : option string;
  clockTolerance : option Z;
}.

(** [interface ValidateOptions]: each expectation is optional. *)
Record ValidateOptions := {
  nonce : option string;
  maxAge : option Z;
  organization : option string;
}.

(** The key handed to [jose.jwtVerify]: the shared secret (its bytes) or
    the remote key set of the tenant. *)
Inductive KeyInput :=
| SharedSecret (bytes : string)
| RemoteJWKSet (url : string).

(** The private fields of the class. *)
Record IDTokenValidator := {
  jwks : KeyInput;
  alg : string;
  audience : string;
  issuer : string;
  clockTol : Z;
  secret : KeyInput;
}.

(** [constructor]: destructuring defaults apply to absent fields;
    [TextEncoder.encode] of an absent secret encodes the empty string. *)
Definition constructor (o : Options) : IDTokenValidator :=
  {| jwks := RemoteJWKSet ("https://" +:+ domain o);
     alg := default "RS256" (idTokenSigningAlg o);
     audience := clientId o;
     secret := SharedSecret (default "" (clientSecret o));
     issuer := "https://" +:+ domain o +:+ "/";
     clockTol := default DEFAULT_CLOCK_TOLERANCE (clockTolerance o) |}.

(** The options object passed to [jose.jwtVerify]. *)
Record JWTVerifyOptions := {
  vo_issuer : string;
  vo_audience : string;
}.

(** The protected header returned by [jose.jwtVerify]. *)
Record ProtectedHeader := { header_alg : string }.

(** Every error raised by [validate] itself is an
    [IdTokenValidatorError]; the constructor tells which [throw] of the
    source raised it and carries the values interpolated in its
    message. *)
Inductive IdTokenValidatorError :=
| AlgNotSupported (found expected : string)
| IssNotPresent
| IssMismatch (expected found : string)
| SubNotPresent
| AudNotPresent
| AudArrayMismatch (expected : string) (found : list JsValue)
| AudStringMismatch (expected found : string)
| OrgNotPresent
| OrgMismatch (expected found : string)
| ExpNotPresent
| ExpExpired (now expTime : Z)
| IatNotPresent
| NonceNotPresent
| NonceMismatch (expected found : string)
| AzpNotPresent
| AzpMismatch (expected found : string)
| AuthTimeNotPresent
| AuthTimeExpired (now authValidUntil : Z).

(** The double-quote character of the messages. *)
Definition dq : string := String (Ascii.ascii_of_nat 34) EmptyString.

(** The message of each error, as the template literals build it. *)
Definition message (e : IdTokenValidatorError) : string :=
  match e with
  | AlgNotSupported found expected =>
      "Signature algorithm of " +:+ dq +:+ found +:+ dq
      +:+ " is not supported. Expected the ID token to be signed with "
      +:+ dq +:+ expected +:+ dq +:+ "."
  | IssNotPresent =>
      "Issuer (iss) claim must be a string present in the ID token"
  | IssMismatch expected found =>
      "Issuer (iss) claim mismatch in the ID token; expected "
      +:+ dq +:+ expected +:+ dq +:+ ", found " +:+ dq +:+ found +:+ dq
  | SubNotPresent =>
      "Subject (sub) claim must be a string present in the ID token"
  | AudNotPresent =>
      "Audience (aud) claim must be a string or array of strings present in the ID token"
  | AudArrayMismatch expected found =>
      "Audience (aud) claim mismatch in the ID token; expected "
      +:+ dq +:+ expected +:+ dq +:+ " but was not one of "
      +:+ dq +:+ joinArray ", " found +:+ dq
  | AudStringMismatch expected found =>
      "Audience (aud) claim mismatch in the ID token; expected "
      +:+ dq +:+ expected +:+ dq +:+ " but found " +:+ dq +:+ found +:+ dq
  | OrgNotPresent =>
      "Organization Id (org_id) claim must be a string present in the ID token"
  | OrgMismatch expected found =>
      "Organization Id (org_id) claim value mismatch in the ID token; expected "
      +:+ dq +:+ expected +:+ dq +:+ ", found " +:+ dq +:+ found +:+ dq +:+ "'"
  | ExpNotPresent =>
      "Expiration Time (exp) claim must be a number present in the ID token"
  | ExpExpired now expTime =>
      "Expiration Time (exp) claim error in the ID token; current time ("
      +:+ pretty now +:+ ") is after expiration time (" +:+ pretty expTime +:+ ")"
  | IatNotPresent =>
      "Issued At (iat) claim must be a number present in the ID token"
  | NonceNotPresent =>
      "Nonce (nonce) claim must be a string present in the ID token"
  | NonceMismatch expected found =>
      "Nonce (nonce) claim mismatch in the ID token; expected "
      +:+ dq +:+ expected +:+ dq +:+ ", found " +:+ dq +:+ found +:+ dq
  | AzpNotPresent =>
      "Authorized Party (azp) claim must be a string present in the ID token when Audience (aud) claim has multiple values"
  | AzpMismatch expected found =>
      "Authorized Party (azp) claim mismatch in the ID token; expected "
      +:+ dq +:+ expected +:+ dq +:+ ", found " +:+ dq +:+ found +:+ dq
  | AuthTimeNotPresent =>
      "Authentication Time (auth_time) claim must be a number present in the ID token when Max Age (max_age) is specified"
  | AuthTimeExpired now authValidUntil =>
      "Authentication Time (auth_time) claim in the ID token indicates that too much time has passed since the last end-user authentication. Currrent time ("
      +:+ pretty now +:+ ") is after last auth at " +:+ pretty authValidUntil
  end.

(** What [validate] can throw: an error of the jose library, out of
    [jwtVerify], or one of its own. *)
Inductive Thrown :=
| JoseError (code : string)
| ValidatorError (e : IdTokenValidatorError).

Section Validate.

(** [jose.jwtVerify(idToken, key, options)], a function of the jose
    library: it either throws or resolves to the protected header and
    the payload of the token. *)
Variable jwtVerify :
  string -> KeyInput -> JWTVerifyOptions ->
  Completion Thrown (ProtectedHeader * gmap string JsValue).

(** [validate(idToken, { nonce, maxAge, organization })].  [dateNow] is
    what [Date.now()] returns (milliseconds) when the time checks
    start. *)
Definition validate (this : IDTokenValidator) (idToken : string)
    (o : ValidateOptions) (dateNow : Z)
    : Completion Thrown (gmap string JsValue) :=
  let secret :=
    if bool_decide (alg this = "HS256") then secret this else jwks this in
  '(header, payload) ← jwtVerify idToken secret
      {| vo_issuer := issuer this; vo_audience := audience this |};
  (* Check algorithm *)
  throwIf (negb (bool_decide (header_alg header = alg this)))
    (ValidatorError (AlgNotSupported (header_alg header) (alg this)));;
  (* Issuer *)
  throwIf (negb (truthy (get payload "iss"))
           || negb (is_string (get payload "iss")))
    (ValidatorError IssNotPresent);;
  throwIf (negb (eq_string (get payload "iss") (issuer this)))
    (ValidatorError
       (IssMismatch (issuer this) (toString (get payload "iss"))));;
  (* Subject *)
  throwIf (negb (truthy (get payload "sub"))
           || negb (is_string (get payload "sub")))
    (ValidatorError SubNotPresent);;
  (* Audience *)
  throwIf (negb (truthy (get payload "aud"))
           || negb (is_string (get payload "aud")
                    || isArray (get payload "aud")))
    (ValidatorError AudNotPresent);;
  (if isArray (get payload "aud")
      && negb (includes (arrayItems (get payload "aud")) (audience this))
   then
     Throw (ValidatorError
              (AudArrayMismatch (audience this)
                 (arrayItems (get payload "aud"))))
   else if is_string (get payload "aud")
           && negb (eq_string (get payload "aud") (audience this))
   then
     Throw (ValidatorError
              (AudStringMismatch (audience this)
                 (toString (get payload "aud"))))
   else mret tt);;
  (* Organization *)
  (if truthy (ofString (organization o)) then
     throwIf (negb (truthy (get payload "org_id"))
              || negb (is_string (get payload "org_id")))
       (ValidatorError OrgNotPresent);;
     throwIf (negb (eq_string (get payload "org_id")
                      (toString (ofString (organization o)))))
       (ValidatorError
          (OrgMismatch (toString (ofString (organization o)))
             (toString (get payload "org_id"))))
   else mret tt);;
  (* --Time validation (epoch)-- *)
  let now := dateNow `div` 1000 in
  (* Expires at *)
  throwIf (negb (truthy (get payload "exp"))
           || negb (is_number (get payload "exp")))
    (ValidatorError ExpNotPresent);;
  let expTime := numberOf (get payload "exp") + clockTol this in
  throwIf (now >? expTime) (ValidatorError (ExpExpired now expTime));;
  (* Issued at *)
  throwIf (negb (truthy (get payload "iat"))
           || negb (is_number (get payload "iat")))
    (ValidatorError IatNotPresent);;
  (* Nonce *)
  (if truthy (ofString (nonce o)) then
     throwIf (negb (truthy (get payload "nonce"))
              || negb (is_string (get payload "nonce")))
       (ValidatorError NonceNotPresent);;
     throwIf (negb (eq_string (get payload "nonce")
                      (toString (ofString (nonce o)))))
       (ValidatorError
          (NonceMismatch (toString (ofString (nonce o)))
             (toString (get payload "nonce"))))
   else mret tt);;
  (* Authorized party *)
  (if isArray (get payload "aud")
      && (Z.of_nat (length (arrayItems (get payload "aud"))) >? 1)
   then
     throwIf (negb (truthy (get payload "azp"))
              || negb (is_string (get payload "azp")))
       (ValidatorError AzpNotPresent);;
     throwIf (negb (eq_string (get payload "azp") (audience this)))
       (ValidatorError
          (AzpMismatch (audience this) (toString (get payload "azp"))))
   else mret tt);;
  (* Authentication time *)
  (if truthy (ofNumber (maxAge o)) then
     throwIf (negb (truthy (get payload "auth_time"))
              || negb (is_number (get payload "auth_time")))
       (ValidatorError AuthTimeNotPresent);;
     let authValidUntil :=
       numberOf (get payload "auth_time") + numberOf (ofNumber (maxAge o))
       + clockTol this in
     throwIf (now >? authValidUntil)
       (ValidatorError (AuthTimeExpired now authValidUntil))
   else mret tt);;
  mret payload.

End Validate.

(** ** The pipeline read step by step

    The ten steps of the validator, in the order in which the
    specification lists them, each with the condition under which the
    source makes it throw when it is looked at alone. *)

Inductive Check :=
| SignatureAlgorithm
| Issuer
| Subject
| Audience
| Organization
| Expiration
| IssuedAt
| Nonce
| AuthorizedParty
| AuthenticationTime.

#[global] Instance Check_eq_dec : EqDecision Check.
Proof. solve_decision. Defined.

Definition pipeline : list Check :=
  [ SignatureAlgorithm; Issuer; Subject; Audience; Organization;
    Expiration; IssuedAt; Nonce; AuthorizedParty; AuthenticationTime ].


(** The step an error belongs to. *)
Definition check_of (e : IdTokenValidatorError) : Check :=
  match e with
  | AlgNotSupported _ _ => SignatureAlgorithm
  | IssNotPresent | IssMismatch _ _ => Issuer
  | SubNotPresent => Subject
  | AudNotPresent | AudArrayMismatch _ _ | AudStringMismatch _ _ => Audience
  | OrgNotPresent | OrgMismatch _ _ => Organization
  | ExpNotPresent | ExpExpired _ _ => Expiration
  | IatNotPresent => IssuedAt
  | NonceNotPresent | NonceMismatch _ _ => Nonce
  | AzpNotPresent | AzpMismatch _ _ => AuthorizedParty
  | AuthTimeNotPresent | AuthTimeExpired _ _ => AuthenticationTime
  end.

(** [violation this header payload o now c]: the error of step [c] on a
    verified token, [None] when the step finds nothing wrong. *)
Definition violation (this : IDTokenValidator) (header : ProtectedHeader)
    (payload : gmap string JsValue) (o : ValidateOptions) (now : Z)
    (c : Check) : option IdTokenValidatorError :=
  match c with
  | SignatureAlgorithm =>
      if bool_decide (header_alg header = alg this) then None
      else Some (AlgNotSupported (header_alg header) (alg this))
  | Issuer =>
      match get payload "iss" with
      | JString s =>
          if bool_decide (s = "") then Some IssNotPresent
          else if bool_decide (s = issuer this) then None
          else Some (IssMismatch (issuer this) s)
      | _ => Some IssNotPresent
      end
  | Subject =>
      match get payload "sub" with
      | JString s => if bool_decide (s = "") then Some SubNotPresent else None
      | _ => Some SubNotPresent
      end
  | Audience =>
      match get payload "aud" with
      | JString s =>
          if bool_decide (s = "") then Some AudNotPresent
          else if bool_decide (s = audience this) then None
          else Some (AudStringMismatch (audience this) s)
      | JArray items =>
          if includes items (audience this) then None
          else Some (AudArrayMismatch (audience this) items)
      | _ => Some AudNotPresent
      end
  | Organization =>
      match organization o with
      | None => None
      | Some org =>
          if bool_decide (org = "") then None
          else match get payload "org_id" with
               | JString s =>
                   if bool_decide (s = "") then Some OrgNotPresent
                   else if bool_decide (s = org) then None
                   else Some (OrgMismatch org s)
               | _ => Some OrgNotPresent
               end
      end
  | Expiration =>
      match get payload "exp" with
      | JNumber n =>
          if n =? 0 then Some ExpNotPresent
          else if now >? n + clockTol this
               then Some (ExpExpired now (n + clockTol this))
               else None
      | _ => Some ExpNotPresent
      end
  | IssuedAt =>
      match get payload "iat" with
      | JNumber n => if n =? 0 then Some IatNotPresent else None
      | _ => Some IatNotPresent
      end
  | Nonce =>
      match nonce o with
      | None => None
      | Some expected =>
          if bool_decide (expected = "") then None
          else match get payload "nonce" with
               | JString s =>
                   if bool_decide (s = "") then Some NonceNotPresent
                   else if bool_decide (s = expected) then None
                   else Some (NonceMismatch expected s)
               | _ => Some NonceNotPresent
               end
      end
  | AuthorizedParty =>
      match get payload "aud" with
      | JArray (_ :: _ :: _) =>
          match get payload "azp" with
          | JString s =>
              if bool_decide (s = "") then Some AzpNotPresent
              else if bool_decide (s = audience this) then None
              else Some (AzpMismatch (audience this) s)
          | _ => Some AzpNotPresent
          end
      | _ => None
      end
  | AuthenticationTime =>
      match maxAge o with
      | None => None
      | Some age =>
          if age =? 0 then None
          else match get payload "auth_time" with
               | JNumber n =>
                   if n =? 0 then Some AuthTimeNotPresent
                   else if now >? n + age + clockTol this
                        then Some (AuthTimeExpired now (n + age + clockTol this))
                        else None
               | _ => Some AuthTimeNotPresent
               end
      end
  end.

(** The error of the first step of [cs] that finds something wrong. *)
Fixpoint first_violation (this : IDTokenValidator) (header : ProtectedHeader)
    (payload : gmap string JsValue) (o : ValidateOptions) (now : Z)
    (cs : list Check) : option IdTokenValidatorError :=
  match cs with
  | [] => None
  | c :: rest =>
      match violation this header payload o now c with
      | Some e => Some e
      | None => first_violation this header payload o now rest
      end
  end.

(** What a step makes of the run: its error is thrown, or the run goes
    on with [k]. *)
Definition outcome_of {A} (v : option IdTokenValidatorError)
    (k : Completion Thrown A) : Completion Thrown A :=
  match v with Some e => Throw (ValidatorError e) | None => k end.

(** The key [validate] hands to [jwtVerify]. *)
Definition keyFor (this : IDTokenValidator) : KeyInput :=
  if bool_decide (alg this = "HS256") then secret this else jwks this.

(** The validator as the specification describes it: signature
    verification, then the steps of [pipeline] in order, stopping at the
    first one that fails. *)
Definition validate_pipeline
    (jwtVerify : string -> KeyInput -> JWTVerifyOptions ->
                 Completion Thrown (ProtectedHeader * gmap string JsValue))
    (this : IDTokenValidator) (idToken : string) (o : ValidateOptions)
    (dateNow : Z) : Completion Thrown (gmap string JsValue) :=
  match jwtVerify idToken (keyFor this)
          {| vo_issuer := issuer this; vo_audience := audience this |} with
  | Throw e => Throw e
  | Normal (header, payload) =>
      outcome_of
        (first_violation this header payload o (dateNow `div` 1000) pipeline)
        (Normal payload)
  end.

(** The claims that [validate] reads. *)
Definition examinedClaims : list string :=
  [ "iss"; "sub"; "aud"; "org_id"; "exp"; "iat"; "nonce"; "azp"; "auth_time" ].

(** ** What [jose.jwtVerify] checks

    [jose] is a library and none of it is under [src/].  [validate]
    calls [jwtVerify] with the options [issuer] and [audience] and no
    other: no [clockTolerance], no [maxTokenAge], no [subject], no
    [typ], no [currentDate].  As the library documents it, [jwtVerify]
    first verifies the signature of the token, which gives the
    protected header and the payload, and then validates the claims
    set against the options and against its own reading of the clock.
    The first part is cryptography and stays a parameter,
    [verifySignature]; the second part, for the options above, is
    [joseClaims]. *)

(** The [code] of the two errors of the claims validation. *)
Definition ERR_JWT_CLAIM_VALIDATION_FAILED : string :=
  "ERR_JWT_CLAIM_VALIDATION_FAILED".

Definition ERR_JWT_EXPIRED : string := "ERR_JWT_EXPIRED".

(** The expected audience is in the [aud] claim: equal to it when the
    claim is a string, one of its entries when it is an array. *)
Definition checkAudiencePresence (audPayload : JsValue) (audience : string)
    : bool :=
  match audPayload with
  | JString s => bool_decide (s = audience)
  | JArray items => includes items audience
  | _ => false
  end.

(** The validation of the claims set for the options
    [{ issuer, audience }] at the clock reading [now], in seconds
    ([Math.floor(new Date().getTime() / 1000)]), with a tolerance of
    zero: an expected issuer or audience that is the empty string is
    not compared ([issuer && ...]; versions of the library differ on
    whether the claim must still be there in that case, and it is
    taken not to be); [iat], [nbf] and [exp] have to be numbers when
    they are there; [nbf] may not be after [now]; [exp] has to be
    after [now].  Of the errors only the [code] is kept. *)
Definition joseClaims (options : JWTVerifyOptions) (now : Z)
    (payload : gmap string JsValue) : Completion Thrown unit :=
  throwIf (truthy (JString (vo_issuer options))
           && negb (eq_string (get payload "iss") (vo_issuer options)))
    (JoseError ERR_JWT_CLAIM_VALIDATION_FAILED);;
  throwIf (truthy (JString (vo_audience options))
           && negb (checkAudiencePresence (get payload "aud")
                      (vo_audience options)))
    (JoseError ERR_JWT_CLAIM_VALIDATION_FAILED);;
  throwIf (negb (isUndefined (get payload "iat"))
           && negb (is_number (get payload "iat")))
    (JoseError ERR_JWT_CLAIM_VALIDATION_FAILED);;
  match get payload "nbf" with
  | JUndefined => mret tt
  | JNumber nbf =>
      throwIf (nbf >? now) (JoseError ERR_JWT_CLAIM_VALIDATION_FAILED)
  | _ => Throw (JoseError ERR_JWT_CLAIM_VALIDATION_FAILED)
  end;;
  match get payload "exp" with
  | JUndefined => mret tt
  | JNumber exp => throwIf (exp <=? now) (JoseError ERR_JWT_EXPIRED)
  | _ => Throw (JoseError ERR_JWT_CLAIM_VALIDATION_FAILED)
  end.

(** [jose.jwtVerify(idToken, key, options)] when [jose] reads [now] on
    the clock. *)
Definition jwtVerifyAt
    (verifySignature :
       string -> KeyInput ->
       Completion Thrown (ProtectedHeader * gmap string JsValue))
    (now : Z) (idToken : string) (key : KeyInput)
    (options : JWTVerifyOptions)
    : Completion Thrown (ProtectedHeader * gmap string JsValue) :=
  '(header, payload) ← verifySignature idToken key;
  joseClaims options now payload;;
  mret (header, payload).

(** The claims that [joseClaims] reads. *)
Definition joseClaimsRead : list string :=
  [ "iss"; "aud"; "iat"; "nbf"; "exp" ].

(** ** Sample tokens *)

(** A token whose signature verifies, with the given header and
    payload. *)
Definition signed (header : ProtectedHeader) (payload : gmap string JsValue)
    : string -> KeyInput ->
      Completion Thrown (ProtectedHeader * gmap string JsValue) :=
  fun _ _ => Normal (header, payload).

(** A call of [jwtVerify] that has succeeded with the given header and
    payload: it stands for the outcome of the call and makes no check
    of its own.  What [jose.jwtVerify] checks before it succeeds is
    [jwtVerifyAt]. *)
Definition verified (header : ProtectedHeader) (payload : gmap string JsValue)
    : string -> KeyInput -> JWTVerifyOptions ->
      Completion Thrown (ProtectedHeader * gmap string JsValue) :=
  fun _ _ _ => Normal (header, payload).

Definition sampleValidator : IDTokenValidator :=
  constructor {| domain := "tenant.example.com";
                 clientId := "client-a";
                 clientSecret := None;
                 idTokenSigningAlg := None;
                 clockTolerance := None |}.

Definition RS256 : ProtectedHeader := {| header_alg := "RS256" |}.

Definition noExpectation : ValidateOptions :=
  {| nonce := None; maxAge := None; organization := None |}.

(** A token that passes every step until 1700000060 seconds. *)
Definition samplePayload : gmap string JsValue :=
  {[ "iss" := JString "https://tenant.example.com/";
     "sub" := JString "auth0|5f7c8ec7c33c6c004bbafe82";
     "aud" := JString "client-a";
     "exp" := JNumber 1700000000;
     "iat" := JNumber 1699990000 ]}.

(** The same token with [exp] at the epoch. *)
Definition epochPayload : gmap string JsValue :=
  <[ "exp" := JNumber 0 ]> samplePayload.

(** The same token issued to two clients, without an [azp] claim. *)
Definition twoClientsPayload : gmap string JsValue :=
  <[ "aud" := JArray [JString "client-a"; JString "client-b"] ]> samplePayload.

(** A token of another tenant, for two clients, without [azp]. *)
Definition foreignPayload : gmap string JsValue :=
  <[ "iss" := JString "https://other.example.com/" ]> twoClientsPayload.

(** A run of [validate] on a token whose signature verifies, [jose]
    and [validate] reading the clock in the same second [now]. *)
Definition validateAt (header : ProtectedHeader)
    (payload : gmap string JsValue) (this : IDTokenValidator)
    (o : ValidateOptions) (now : Z) : Completion Thrown (gmap string JsValue) :=
  validate (jwtVerifyAt (signed header payload) now) this "id-token" o
    (now * 1000).

(** A token for two other clients, and the sample token without
    [exp]. *)
Definition otherClientsPayload : gmap string JsValue :=
  <[ "aud" := JArray [JString "client-b"; JString "client-c"] ]>
    samplePayload.

Definition undatedPayload : gmap string JsValue :=
  delete "exp" samplePayload.

End IdToken.

(** * The request runtime ([src/lib/runtime.ts]) *)

Module Runtime.
Import JS.

(** ** Thrown values

    [AbortError] is the error with which node-fetch rejects a request
    whose signal was aborted.  Any other error of the transport, of a
    middleware or of the error parser is an [OtherError]; JavaScript also
    lets a program throw a value that is no [Error] at all. *)
Inductive Thrown :=
| AbortError
| TimeoutError
| FetchError (cause : Thrown) (msg : string)
| OtherError (name msg : string)
| NonError (v : JsValue).

(** Modelled from the spec: the classes [TimeoutError] and [FetchError]
    of [./errors], a file that is not among the sources.  Section 7 lists
    both in its taxonomy of errors (the timeout error, and the
    transport-failure error that wraps a cause), so both are instances of
    [Error], as is everything except a [NonError]. *)
Definition instanceof_Error (e : Thrown) : bool :=
  match e with NonError _ => false | _ => true end.

Definition instanceof_AbortError (e : Thrown) : bool :=
  match e with AbortError => true | _ => false end.

(** ** Requests and responses *)

Definition Url := string.

(** A value of a [RequestInit] property. *)
Inductive InitValue :=
| IUndefined
| IData (v : JsValue)
| IHeaders (h : gmap string string)
| IFormData (d : string)
| IURLSearchParams (d : string)
| IBlob (d : string)
| IAgent (a : string)
| ISignal (controller : nat).

(** [isFormData(v) || v instanceof URLSearchParams || isBlob(v)] *)
Definition passesThrough (v : InitValue) : bool :=
  match v with IFormData _ | IURLSearchParams _ | IBlob _ => true | _ => false end.

Record Response := {
  status : Z;
  statusText : string;
  body : string;
}.

(** [response.clone()] *)
Definition clone (r : Response) : Response := r.

(** [HTTPHeaders]; a key may hold [undefined] ([None]). *)
Abbreviation HTTPHeaders := (gmap string (option string)).

(** [HTTPQuery]: the own properties of the object, in the order in which
    [Object.keys] lists them. *)
Abbreviation HTTPQuery := (list (string * JsValue)).

Record RequestOpts := {
  path : string;
  method : string;
  ro_headers : option HTTPHeaders;
  query : option HTTPQuery;
  ro_body : InitValue;
}.

Record FetchParams := {
  fp_url : Url;
  fp_init : gmap string InitValue;
}.

(** ** Query strings *)

Definition isUnreserved (a : ascii) : bool :=
  let n := N_of_ascii a in
  ((65 <=? n) && (n <=? 90) || (97 <=? n) && (n <=? 122)
   || (48 <=? n) && (n <=? 57))%N
  || bool_decide (a ∈ [ "-"; "_"; "."; "!"; "~"; "*"; "'"; "("; ")" ]%char).

Definition hexDigit (n : N) : ascii :=
  ascii_of_N (if (n <? 10)%N then 48 + n else 55 + n)%N.

Definition percentEncode (a : ascii) : string :=
  let n := N_of_ascii a in
  String "%" (String (hexDigit (n / 16)) (String (hexDigit (n mod 16)) ""))%N.

(** [encodeURIComponent(s)]: every byte of the UTF-8 form of [s] that is
    not an unreserved character becomes [%XX]. *)
Fixpoint encodeURIComponent (s : string) : string :=
  match s with
  | EmptyString => ""
  | String a rest =>
      (if isUnreserved a then String a "" else percentEncode a)
      +:+ encodeURIComponent rest
  end.

Definition querystringSingleKey (key : string) (value : JsValue) : string :=
  match value with
  | JArray items =>
      let multiValue :=
        join ("&" +:+ encodeURIComponent key +:+ "=")
          (map (fun singleValue => encodeURIComponent (toString singleValue))
             items) in
      encodeURIComponent key +:+ "=" +:+ multiValue
  | _ => encodeURIComponent key +:+ "=" +:+ encodeURIComponent (toString value)
  end.

Definition querystring (params : HTTPQuery) : string :=
  join "&"
    (List.filter (fun part => (0 <? String.length part)%nat)
       (map (fun kv => querystringSingleKey kv.1 kv.2) params)).

(** The number of [key=value] pairs that [querystring] writes for
    [params]: one for each entry of an array, one for an array without
    entries, one for any other value. *)
Definition pairsOfValue (value : JsValue) : nat :=
  match value with
  | JArray items => Nat.max 1 (length items)
  | _ => 1
  end.

Definition pairsOf (params : HTTPQuery) : nat :=
  list_sum (map (fun kv => pairsOfValue kv.2) params).

(** The pair that [querystringSingleKey] writes for a key and a value
    that is not an array:
    [`${encodeURIComponent(key)}=${encodeURIComponent(String(value))}`]. *)
Definition pairOf (key : string) (value : JsValue) : string :=
  encodeURIComponent key +:+ "=" +:+ encodeURIComponent (toString value).

(** ** The world and computations in it

    [Sigma] is the state of everything outside the executor (the network,
    the state the user's callbacks close over).  A [World] adds what the
    executor itself does to its surroundings: the timers it has armed and
    not yet cleared, and, kept for the statements below, the calls it
    made to the transport and to the error parser, oldest first. *)

Section Executor.

Context {Sigma : Type}.

Record World := {
  env : Sigma;
  nextId : nat;
  timers : list nat;
  transportCalls : list (Url * gmap string InitValue);
  parseErrorCalls : list Response;
}.

Definition M (A : Type) : Type := World -> Completion Thrown A * World.

(** A callback of the user: it sees and changes [Sigma] only. *)
Definition External (A : Type) : Type := Sigma -> Completion Thrown A * Sigma.

Definition ret {A} (a : A) : M A := fun w => (Normal a, w).

Definition throw {A} (e : Thrown) : M A := fun w => (Throw e, w).

Definition bind {A B} (c : M A) (k : A -> M B) : M B :=
  fun w =>
    match c w with
    | (Normal a, w') => k a w'
    | (Throw e, w') => (Throw e, w')
    end.

(** [try { body } catch (e) { handler }] *)
Definition tryCatch {A} (body : M A) (handler : Thrown -> M A) : M A :=
  fun w =>
    match body w with
    | (Normal a, w') => (Normal a, w')
    | (Throw e, w') => handler e w'
    end.

(** [try { body } finally { final }], for a [final] that completes
    normally or throws. *)
Definition tryFinally {A} (body : M A) (final : M unit) : M A :=
  fun w =>
    let (r, w') := body w in
    match final w' with
    | (Normal _, w'') => (r, w'')
    | (Throw e, w'') => (Throw e, w'')
    end.

(** [for (const x of xs) acc = step(acc, x)] *)
Fixpoint forOf {A X} (step : A -> X -> M A) (xs : list X) (acc : A) : M A :=
  match xs with
  | [] => ret acc
  | x :: rest => bind (step acc x) (forOf step rest)
  end.

Definition FetchAPI : Type := Url -> gmap string InitValue -> M Response.

Record RequestContext := {
  rc_fetch : FetchAPI;
  rc_url : Url;
  rc_init : gmap string InitValue;
}.

Record ResponseContext := {
  pc_fetch : FetchAPI;
  pc_url : Url;
  pc_init : gmap string InitValue;
  pc_response : Response;
}.

Record ErrorContext := {
  ec_fetch : FetchAPI;
  ec_url : Url;
  ec_init : gmap string InitValue;
  ec_error : Thrown;
  ec_response : option Response;
}.

(** [interface Middleware]: each hook is optional and resolves to a
    replacement or to nothing. *)
Record Middleware := {
  pre : option (RequestContext -> M (option FetchParams));
  post : option (ResponseContext -> M (option Response));
  onError : option (ErrorContext -> M (option Response));
}.

(** [InitOverride]: a [RequestInit], or a function that resolves to
    one. *)
Inductive InitOverride :=
| OverrideInit (init : gmap string InitValue)
| OverrideFunction
    (f : gmap string InitValue -> RequestOpts -> M (gmap string InitValue)).

(** [interface Configuration] *)
Record Configuration := {
  baseUrl : string;
  parseError : Response -> External Thrown;
  fetchApi : option (Url -> gmap string InitValue -> External Response);
  middleware : option (list Middleware);
  headers : option HTTPHeaders;
  agent : InitValue;
  timeoutDuration : option Z;
  retry : option (gmap string JsValue);
}.

(** The fields of a [BaseAPI] object. *)
Record BaseAPI := {
  configuration : Configuration;
  this_middleware : list Middleware;
  this_fetchApi : Url -> gmap string InitValue -> External Response;
  this_parseError : Response -> External Thrown;
  this_timeoutDuration : Z;
}.

(** [fetch] of node-fetch, the default transport. *)
Variable nodeFetch : Url -> gmap string InitValue -> External Response.

(** [JSON.stringify] on the body of a request. *)
Variable JSON_stringify : InitValue -> InitValue.

(** [retry(action, configuration)] of [./retry], a file that is not
    among the sources: any function of the exchange it is given and of
    the retry configuration. *)
Variable retryFn : M Response -> gmap string JsValue -> M Response.

(** [constructor(configuration)].  The first test of the source
    ([baseUrl] null or undefined) guards untyped callers; a [string]
    is neither. *)
Definition constructor (c : Configuration) : Completion Thrown BaseAPI :=
  if (String.length (baseUrl c) =? 0)%nat then
    Throw (OtherError "Error" "The provided base URL is invalid")
  else
    Normal {| configuration := c;
              this_middleware := default [] (middleware c);
              this_fetchApi := default nodeFetch (fetchApi c);
              this_parseError := parseError c;
              this_timeoutDuration := default 10000 (timeoutDuration c) |}.

(** [Object.assign({}, a, b)] and the removal of the keys that hold
    [undefined]. *)
Definition mergeHeaders (a b : option HTTPHeaders) : gmap string string :=
  omap id (default ∅ b ∪ default ∅ a).

(** [createFetchParams(context, initOverrides)] *)
Definition createFetchParams (this : BaseAPI) (context : RequestOpts)
    (initOverrides : option InitOverride)
    : M (Url * gmap string InitValue) :=
  let url := baseUrl (configuration this) +:+ path context in
  let url :=
    match query context with
    | Some q =>
        if negb (length (map fst q) =? 0)%nat
        then url +:+ "?" +:+ querystring q
        else url
    | None => url
    end in
  let headers :=
    mergeHeaders (headers (configuration this)) (ro_headers context) in
  let initOverrideFn :
      gmap string InitValue -> RequestOpts -> M (gmap string InitValue) :=
    match initOverrides with
    | Some (OverrideFunction f) => f
    | Some (OverrideInit init) => fun _ _ => ret init
    | None => fun _ _ => ret ∅
    end in
  let initParams : gmap string InitValue :=
    {[ "method" := IData (JString (method context));
       "headers" := IHeaders headers;
       "body" := ro_body context;
       "agent" := agent (configuration this) ]} in
  bind (initOverrideFn initParams context) (fun override =>
  let overriddenInit := override ∪ initParams in
  let body := default IUndefined (overriddenInit !! "body") in
  let init :=
    <[ "body" := if passesThrough body then body else JSON_stringify body ]>
      overriddenInit in
  ret (url, init)).

(** The transport is called: the call is recorded, then the world
    outside answers. *)
Definition callTransport (this : BaseAPI) (url : Url)
    (init : gmap string InitValue) : M Response :=
  fun w =>
    let (r, s) := this_fetchApi this url init (env w) in
    (r, {| env := s; nextId := nextId w; timers := timers w;
           transportCalls := transportCalls w ++ [(url, init)];
           parseErrorCalls := parseErrorCalls w |}).

(** [new AbortController()] followed by
    [setTimeout(() => controller.abort(), duration)]: the controller
    and its timer share an identifier. *)
Definition armTimeout (duration : Z) : M nat :=
  fun w =>
    (Normal (nextId w),
     {| env := env w; nextId := S (nextId w);
        timers := nextId w :: timers w;
        transportCalls := transportCalls w;
        parseErrorCalls := parseErrorCalls w |}).

(** [clearTimeout(timeout)] *)
Definition clearTimeout (timeout : nat) : M unit :=
  fun w =>
    (Normal tt,
     {| env := env w; nextId := nextId w;
        timers := List.filter (fun t => negb (t =? timeout)%nat) (timers w);
        transportCalls := transportCalls w;
        parseErrorCalls := parseErrorCalls w |}).

(** [fetchWithTimeout(url, init)] *)
Definition fetchWithTimeout (this : BaseAPI) : FetchAPI :=
  fun url init =>
    bind (armTimeout (this_timeoutDuration this)) (fun controller =>
    tryFinally
      (tryCatch
         (callTransport this url
            (init ∪ {[ "signal" := ISignal controller ]}))
         (fun e =>
            if instanceof_AbortError e then throw TimeoutError
            else throw e))
      (clearTimeout controller)).

(** The [init] that [fetchWithTimeout] hands to the transport when it
    starts in [w]: [{ signal: controller.signal, ...init }]. *)
Definition guarded (init : gmap string InitValue) (w : World)
    : gmap string InitValue :=
  init ∪ {[ "signal" := ISignal (nextId w) ]}.

(** Every timer that is armed was armed with an identifier already
    handed out. *)
Definition timersFresh (w : World) : bool :=
  forallb (fun t => (t <? nextId w)%nat) (timers w).

(** One round of [for (const middleware of this.middleware)] in the
    [pre] phase: [(await middleware.pre(...)) || fetchParams]. *)
Definition preStep (this : BaseAPI) (fetchParams : FetchParams)
    (mw : Middleware) : M FetchParams :=
  match pre mw with
  | Some hook =>
      bind (hook {| rc_fetch := fetchWithTimeout this;
                    rc_url := fp_url fetchParams;
                    rc_init := fp_init fetchParams |})
        (fun r => ret (default fetchParams r))
  | None => ret fetchParams
  end.

(** [this.configuration.retry?.enabled !== false] *)
Definition retryEnabled (this : BaseAPI) : bool :=
  negb (is_false
          match retry (configuration this) with
          | Some r => get r "enabled"
          | None => JUndefined
          end).

(** The body of the [try] block: the exchange, under [retry] unless
    retries are disabled.  [{ ...this.configuration.retry }] copies the
    retry configuration, and is the empty object when there is none. *)
Definition exchange (this : BaseAPI) (fetchParams : FetchParams)
    : M Response :=
  if retryEnabled this then
    retryFn
      (fetchWithTimeout this (fp_url fetchParams) (fp_init fetchParams))
      (default ∅ (retry (configuration this)))
  else
    fetchWithTimeout this (fp_url fetchParams) (fp_init fetchParams).

(** One round of the [onError] phase:
    [(await middleware.onError(...)) || response]. *)
Definition onErrorStep (this : BaseAPI) (fetchParams : FetchParams)
    (e : Thrown) (response : option Response) (mw : Middleware)
    : M (option Response) :=
  match onError mw with
  | Some hook =>
      bind (hook {| ec_fetch := fetchWithTimeout this;
                    ec_url := fp_url fetchParams;
                    ec_init := fp_init fetchParams;
                    ec_error := e;
                    ec_response := clone <$> response |})
        (fun r => ret (match r with Some r' => Some r' | None => response end))
  | None => ret response
  end.

(** One round of the [post] phase:
    [(await middleware.post(...)) || response]. *)
Definition postStep (this : BaseAPI) (fetchParams : FetchParams)
    (response : Response) (mw : Middleware) : M Response :=
  match post mw with
  | Some hook =>
      bind (hook {| pc_fetch := callTransport this;
                    pc_url := fp_url fetchParams;
                    pc_init := fp_init fetchParams;
                    pc_response := clone response |})
        (fun r => ret (default response r))
  | None => ret response
  end.

Definition interceptorsFailed : string :=
  "The request failed and the interceptors did not return an alternative response".

(** What the [catch] block throws for a cause [e] when no hook
    supplied a response. *)
Definition unrecovered (e : Thrown) : Thrown :=
  if instanceof_Error e then FetchError e interceptorsFailed else e.

(** The [catch (e)] block of [fetch]. *)
Definition onFailure (this : BaseAPI) (fetchParams : FetchParams)
    (e : Thrown) : M Response :=
  bind (forOf (onErrorStep this fetchParams e) (this_middleware this) None)
    (fun response =>
       match response with
       | None =>
           if instanceof_Error e
           then throw (FetchError e interceptorsFailed)
           else throw e
       | Some r => ret r
       end).

(** [fetch(url, init)] *)
Definition fetch (this : BaseAPI) (url : Url)
    (init : gmap string InitValue) : M Response :=
  bind (forOf (preStep this) (this_middleware this)
          {| fp_url := url; fp_init := init |})
    (fun fetchParams =>
  bind (tryCatch (exchange this fetchParams) (onFailure this fetchParams))
    (fun response =>
  forOf (postStep this fetchParams) (this_middleware this) response)).

(** [await this.parseError(response)]: the call is recorded, then the
    parser of the user runs. *)
Definition callParseError (this : BaseAPI) (response : Response)
    : M Thrown :=
  fun w =>
    let (r, s) := this_parseError this response (env w) in
    (r, {| env := s; nextId := nextId w; timers := timers w;
           transportCalls := transportCalls w;
           parseErrorCalls := parseErrorCalls w ++ [response] |}).

(** [request(context, initOverrides)].  A [Response] is an object, so
    the test [response &&] holds. *)
Definition request (this : BaseAPI) (context : RequestOpts)
    (initOverrides : option InitOverride) : M Response :=
  bind (createFetchParams this context initOverrides) (fun '(url, init) =>
  bind (fetch this url init) (fun response =>
  if (status response >=? 200) && (status response <? 300)
  then ret response
  else bind (callParseError this response) (fun error => throw error))).

End Executor.



(** ** Helpers of the generated managers *)

(** The tab character. *)
Definition tab : string := String (Ascii.ascii_of_nat 9) EmptyString.

(** [COLLECTION_FORMATS] *)
Inductive CollectionFormat := csv | ssv | tsv | pipes.

Definition COLLECTION_FORMATS (format : CollectionFormat) : string :=
  match format with
  | csv => ","
  | ssv => " "
  | tsv => tab
  | pipes => "|"
  end.

(** [interface Consume] *)
Record Consume := { contentType : string }.

(** [canConsumeForm(consumes)] *)
Fixpoint canConsumeForm (consumes : list Consume) : bool :=
  match consumes with
  | [] => false
  | consume :: rest =>
      if bool_decide ("multipart/form-data" = contentType consume) then true
      else canConsumeForm rest
  end.

(** Modelled from the spec: the class [RequiredError] of [./errors], a
    file that is not among the sources.  Section 7 lists it as the error
    raised for a missing required field; it is an [Error] built from the
    name of the field and a message. *)
Definition RequiredError (field msg : string) : Thrown :=
  OtherError "RequiredError" msg.

(** The [TypeError] of a call of [join] on a value that has no such
    method, [undefined] and [null] included.  The text of the message
    is the engine's and differs from one such value to another; only
    the class of the error is meant. *)
Definition joinTypeError : Thrown :=
  OtherError "TypeError" "requestParameters[key].join is not a function".

Definition requiredMessage (key : string) : string :=
  "Required parameter requestParameters." +:+ key
  +:+ " was null or undefined.".

(** [validateRequiredRequestParams(requestParameters, keys)]: the
    [throw] inside the callback of [forEach] ends the loop. *)
Fixpoint validateRequiredRequestParams
    (requestParameters : gmap string JsValue) (keys : list string)
    : Completion Thrown unit :=
  match keys with
  | [] => Normal tt
  | key :: rest =>
      if isNullish (get requestParameters key)
      then Throw (RequiredError key (requiredMessage key))
      else validateRequiredRequestParams requestParameters rest
  end.

(** [type QueryParamConfig] *)
Record QueryParamConfig := {
  isArray : option bool;
  isCollectionFormatMulti : option bool;
  collectionFormat : option CollectionFormat;
}.

(** The test [if (flag)] on an optional boolean. *)
Definition isSet (flag : option bool) : bool :=
  match flag with Some true => true | _ => false end.

(** [arr.join(separator)] with a separator that may be [undefined]: the
    separator is then a comma. *)
Definition joinWith (separator : option string) (items : list JsValue)
    : string :=
  joinArray (default "," separator) items.

(** The [value] that one round of [applyQueryParams] computes for [key]:
    [join] exists on arrays only. *)
Definition queryParamValue (requestParameters : gmap string JsValue)
    (key : string) (config : QueryParamConfig) : Completion Thrown JsValue :=
  if isSet (isArray config) then
    if isSet (isCollectionFormatMulti config) then
      Normal (get requestParameters key)
    else
      match get requestParameters key with
      | JArray items =>
          Normal (JString
                    (joinWith (COLLECTION_FORMATS <$> collectionFormat config)
                       items))
      | _ => Throw joinTypeError
      end
  else
    if negb (isUndefined (get requestParameters key))
    then Normal (get requestParameters key)
    else Normal JUndefined.

(** The callback of [keys.reduce]:
    [value !== undefined ? { ...acc, [key]: value } : acc]. *)
Definition queryParamStep (requestParameters : gmap string JsValue)
    (acc : Completion Thrown (gmap string JsValue))
    (entry : string * QueryParamConfig)
    : Completion Thrown (gmap string JsValue) :=
  acc ← acc;
  value ← queryParamValue requestParameters entry.1 entry.2;
  mret (if negb (isUndefined value) then <[ entry.1 := value ]> acc else acc).

(** [applyQueryParams(requestParameters, keys)]; the object it returns
    is read here as the map from its keys to their values. *)
Definition applyQueryParams (requestParameters : gmap string JsValue)
    (keys : list (string * QueryParamConfig))
    : Completion Thrown (gmap string JsValue) :=
  fold_left (queryParamStep requestParameters) keys (Normal ∅).

(** ** Typed responses and the keys manager *)

(** [interface ApiResponse<T>] *)
Record ApiResponse (T : Type) := {
  data : T;
  ar_headers : gmap string string;
  ar_status : Z;
  ar_statusText : string;
}.
Arguments data {T} _.
Arguments ar_headers {T} _.
Arguments ar_status {T} _.
Arguments ar_statusText {T} _.

Section Managers.

Context {Sigma : Type}.

Variable JSON_stringify : InitValue -> InitValue.
Variable retryFn :
  @M Sigma Response -> gmap string JsValue -> @M Sigma Response.

(** [JSON.parse] on the text of a body, and the headers of a response. *)
Variable JSON_parse : string -> Completion Thrown JsValue.
Variable headersOf : Response -> gmap string string.

(** A completion as a computation that leaves the world as it is. *)
Definition liftCompletion {A} (c : Completion Thrown A) : @M Sigma A :=
  fun w => (c, w).

(** [JSONApiResponse.fromResponse(raw)]: [raw.json()] parses the text of
    the body. *)
Definition JSONApiResponse_fromResponse (raw : Response)
    : @M Sigma (ApiResponse JsValue) :=
  bind (liftCompletion (JSON_parse (body raw))) (fun value =>
  ret {| data := value; ar_headers := headersOf raw;
         ar_status := status raw; ar_statusText := statusText raw |}).

(** [VoidApiResponse.fromResponse(raw)] *)
Definition VoidApiResponse_fromResponse (raw : Response)
    : @M Sigma (ApiResponse unit) :=
  ret {| data := tt; ar_headers := headersOf raw;
         ar_status := status raw; ar_statusText := statusText raw |}.

(** [TextApiResponse.fromResponse(raw)]: [raw.text()] is the text of the
    body. *)
Definition TextApiResponse_fromResponse (raw : Response)
    : @M Sigma (ApiResponse string) :=
  ret {| data := body raw; ar_headers := headersOf raw;
         ar_status := status raw; ar_statusText := statusText raw |}.

(** The request description of a manager method: a path and a method,
    nothing else. *)
Definition describe (path method : string) : RequestOpts :=
  {| path := path; method := method; ro_headers := None;
     query := None; ro_body := IUndefined |}.

(** The path of [get] and of [revoke] for the key id in
    [requestParameters]. *)
Definition signingKeyPath (template : string)
    (requestParameters : gmap string JsValue) : string :=
  replaceFirst "{kid}"
    (encodeURIComponent (toString (get requestParameters "kid")))
    template.

(** Modelled from the spec: the manager imports its [runtime] from
    [../../runtime], a path under which no source is given.  Section 6
    describes the generated managers as consumers of the request core,
    which call its required-parameter check and hand it a request
    description; so the [BaseAPI], [validateRequiredRequestParams] and
    [JSONApiResponse] of the manager are those of [lib/runtime.ts].
    This is [KeysManager.get(requestParameters, initOverrides)]. *)
Definition KeysManager_get (this : @BaseAPI Sigma)
    (requestParameters : gmap string JsValue)
    (initOverrides : option InitOverride)
    : @M Sigma (ApiResponse JsValue) :=
  bind (liftCompletion
          (validateRequiredRequestParams requestParameters ["kid"]))
    (fun _ =>
  bind (request JSON_stringify retryFn this
          (describe (signingKeyPath "/keys/signing/{kid}" requestParameters)
             "GET")
          initOverrides)
    JSONApiResponse_fromResponse).

(** [KeysManager.getAll(initOverrides)] *)
Definition KeysManager_getAll (this : @BaseAPI Sigma)
    (initOverrides : option InitOverride)
    : @M Sigma (ApiResponse JsValue) :=
  bind (request JSON_stringify retryFn this
          (describe "/keys/signing" "GET") initOverrides)
    JSONApiResponse_fromResponse.

(** [KeysManager.rotate(initOverrides)] *)
Definition KeysManager_rotate (this : @BaseAPI Sigma)
    (initOverrides : option InitOverride)
    : @M Sigma (ApiResponse JsValue) :=
  bind (request JSON_stringify retryFn this
          (describe "/keys/signing/rotate" "POST") initOverrides)
    JSONApiResponse_fromResponse.

(** [KeysManager.revoke(requestParameters, initOverrides)] *)
Definition KeysManager_revoke (this : @BaseAPI Sigma)
    (requestParameters : gmap string JsValue)
    (initOverrides : option InitOverride)
    : @M Sigma (ApiResponse JsValue) :=
  bind (liftCompletion
          (validateRequiredRequestParams requestParameters ["kid"]))
    (fun _ =>
  bind (request JSON_stringify retryFn this
          (describe
             (signingKeyPath "/keys/signing/{kid}/revoke" requestParameters)
             "PUT")
          initOverrides)
    JSONApiResponse_fromResponse).

End Managers.

(** ** Sample configurations

    The world outside is trivial here ([unit]): a transport is a fixed
    answer. *)

Definition start : @World unit :=
  {| env := tt; nextId := 0; timers := [];
     transportCalls := []; parseErrorCalls := [] |}.

(** A transport that answers every request with [r]. *)
Definition answering (r : Response)
    : Url -> gmap string InitValue -> @External unit Response :=
  fun _ _ s => (Normal r, s).

(** A transport that fails every request with [e]. *)
Definition failing (e : Thrown)
    : Url -> gmap string InitValue -> @External unit Response :=
  fun _ _ s => (Throw e, s).

(** An error parser that names the status. *)
Definition statusError (r : Response) : @External unit Thrown :=
  fun s => (Normal (OtherError "ManagementApiError" (statusText r)), s).

(** A [retry] that makes one attempt, and a [JSON.stringify] that is
    right on [undefined]; the samples need no more. *)
Definition oneAttempt (action : @M unit Response) (_ : gmap string JsValue)
    : @M unit Response := action.

Definition stringifyUndefined (v : InitValue) : InitValue := v.

Definition sampleBase : string := "https://tenant.example.com/api/v2".

Definition sampleApi
    (transport : Url -> gmap string InitValue -> @External unit Response)
    (retryConfiguration : option (gmap string JsValue)) : @BaseAPI unit :=
  {| configuration :=
       {| baseUrl := sampleBase;
          parseError := statusError;
          fetchApi := Some transport;
          middleware := None;
          headers := None;
          agent := IUndefined;
          timeoutDuration := None;
          retry := retryConfiguration |};
     this_middleware := [];
     this_fetchApi := transport;
     this_parseError := statusError;
     this_timeoutDuration := 10000 |}.

Definition retriesDisabled : option (gmap string JsValue) :=
  Some {[ "enabled" := JBool false ]}.

Definition getLog : RequestOpts :=
  {| path := "/logs/5"; method := "GET"; ro_headers := None;
     query := None; ro_body := IUndefined |}.

(** The same request with two query parameters, and a request whose path
    ends in a question mark. *)
Definition searchLogs : RequestOpts :=
  {| path := "/logs"; method := "GET"; ro_headers := None;
     query := Some [("page", JNumber 2); ("q", JString "type:s?")];
     ro_body := IUndefined |}.

Definition oddPath : RequestOpts :=
  {| path := "/logs?"; method := "GET"; ro_headers := None;
     query := None; ro_body := IUndefined |}.

(** What [createFetchParams] builds for [getLog], and the world after
    one call of the transport for it. *)
Definition getLogUrl : Url := "https://tenant.example.com/api/v2/logs/5".

Definition getLogInit : gmap string InitValue :=
  {[ "method" := IData (JString "GET");
     "headers" := IHeaders ∅;
     "body" := IUndefined;
     "agent" := IUndefined ]}.

Definition afterOneCall : @World unit :=
  {| env := tt; nextId := 1; timers := [];
     transportCalls := [(getLogUrl, guarded getLogInit start)];
     parseErrorCalls := [] |}.

(** A [retry] that makes a second attempt when the first one throws. *)
Definition twoAttempts (action : @M unit Response)
    (_ : gmap string JsValue) : @M unit Response :=
  tryCatch action (fun _ => action).

(** The URL of a run of [createFetchParams], the value thrown by a run,
    and the number of calls of the transport it made. *)
Definition builtUrl {Sigma}
    (run : Completion Thrown (Url * gmap string InitValue) * @World Sigma)
    : option Url :=
  match fst run with Normal (url, _) => Some url | Throw _ => None end.

Definition thrownBy {Sigma A} (run : Completion Thrown A * @World Sigma)
    : option Thrown :=
  match fst run with Normal _ => None | Throw e => Some e end.

Definition attempts {Sigma A} (run : Completion Thrown A * @World Sigma)
    : nat :=
  length (transportCalls (snd run)).

Definition ok200 : Response :=
  {| status := 200; statusText := "OK"; body := "{}" |}.

Definition error500 : Response :=
  {| status := 500; statusText := "Internal Server Error"; body := "{}" |}.

(** Middleware for the samples: one whose [onError] hook answers with
    [r], one whose [pre] hook throws [e], one without hooks. *)
Definition recoveringWith (r : Response) : @Middleware unit :=
  {| pre := None; post := None;
     onError := Some (fun _ => ret (Some r)) |}.

Definition refusing (e : Thrown) : @Middleware unit :=
  {| pre := Some (fun _ => throw e); post := None; onError := None |}.

Definition idle : @Middleware unit :=
  {| pre := None; post := None; onError := None |}.

(** The sample API with middleware and default headers. *)
Definition sampleApiWith
    (transport : Url -> gmap string InitValue -> @External unit Response)
    (retryConfiguration : option (gmap string JsValue))
    (mws : list (@Middleware unit)) (defaults : option HTTPHeaders)
    : @BaseAPI unit :=
  {| configuration :=
       {| baseUrl := sampleBase;
          parseError := statusError;
          fetchApi := Some transport;
          middleware := Some mws;
          headers := defaults;
          agent := IUndefined;
          timeoutDuration := None;
          retry := retryConfiguration |};
     this_middleware := mws;
     this_fetchApi := transport;
     this_parseError := statusError;
     this_timeoutDuration := 10000 |}.

(** Default headers, and a request that takes one of them back. *)
Definition defaultHeaders : HTTPHeaders :=
  {[ "accept" := Some "application/json"; "user-agent" := Some "node" ]}.

Definition plainGetLog : RequestOpts :=
  {| path := "/logs/5"; method := "GET";
     ro_headers := Some {[ "accept" := None; "x-trace" := Some "1" ]};
     query := None; ro_body := IUndefined |}.

(** An override with a signal of the caller. *)
Definition ownSignal : gmap string InitValue :=
  {[ "signal" := ISignal 7 ]}.

(** A [JSON.parse] that knows the empty object, and responses without
    headers. *)
Definition parseBraces (text : string) : Completion Thrown JsValue :=
  if bool_decide (text = "{}") then Normal (JObject [])
  else Throw (OtherError "SyntaxError" "Unexpected end of JSON input").

Definition noHeaders (_ : Response) : gmap string string := ∅.

(** The parameters of a request for one signing key. *)
Definition oneKey : gmap string JsValue :=
  {[ "kid" := JString "a/b?c" ]}.

End Runtime.

(** * Properties of the ID-token validator *)

Section ValidatorSteps.
Import JS IdToken.

Context {A : Type}.
Variables (this : IDTokenValidator) (header : ProtectedHeader)
          (payload : gmap string JsValue) (o : ValidateOptions) (now : Z).
Variable k : Completion Thrown A.

Local Abbreviation violates := (violation this header payload o now).

Local Ltac case_step :=
  unfold outcome_of, violation, throwIf;
  repeat (cbn;
          match goal with
          | |- context [organization ?x] => destruct (organization x)
          | |- context [nonce ?x] => destruct (nonce x)
          | |- context [maxAge ?x] => destruct (maxAge x)
          | |- context [get ?p ?key] =>
              destruct (get p key) as [| |[|]| | | |]
          | |- context [bool_decide ?P] => destruct (bool_decide P)
          | |- context [?n =? 0] => destruct (n =? 0)
          | |- context [?a >? ?b] => destruct (a >? b)
          end);
  try reflexivity.

Lemma step_algorithm :
  (throwIf (negb (bool_decide (header_alg header = alg this)))
     (ValidatorError (AlgNotSupported (header_alg header) (alg this)));; k)
  = outcome_of (violates SignatureAlgorithm) k.
Proof. case_step. Qed.

Lemma step_issuer :
  (throwIf (negb (truthy (get payload "iss"))
            || negb (is_string (get payload "iss")))
     (ValidatorError IssNotPresent);;
   throwIf (negb (eq_string (get payload "iss") (issuer this)))
     (ValidatorError
        (IssMismatch (issuer this) (toString (get payload "iss"))));; k)
  = outcome_of (violates Issuer) k.
Proof. case_step. Qed.

Lemma step_subject :
  (throwIf (negb (truthy (get payload "sub"))
            || negb (is_string (get payload "sub")))
     (ValidatorError SubNotPresent);; k)
  = outcome_of (violates Subject) k.
Proof. case_step. Qed.

Lemma step_audience :
  (throwIf (negb (truthy (get payload "aud"))
            || negb (is_string (get payload "aud")
                     || isArray (get payload "aud")))
     (ValidatorError AudNotPresent);;
   (if isArray (get payload "aud")
       && negb (includes (arrayItems (get payload "aud")) (audience this))
    then
      Throw (ValidatorError
               (AudArrayMismatch (audience this)
                  (arrayItems (get payload "aud"))))
    else if is_string (get payload "aud")
            && negb (eq_string (get payload "aud") (audience this))
    then
      Throw (ValidatorError
               (AudStringMismatch (audience this)
                  (toString (get payload "aud"))))
    else mret tt);; k)
  = outcome_of (violates Audience) k.
Proof.
  case_step.
  all: destruct (includes _ _); reflexivity.
Qed.

Lemma step_organization :
  ((if truthy (ofString (organization o)) then
      throwIf (negb (truthy (get payload "org_id"))
               || negb (is_string (get payload "org_id")))
        (ValidatorError OrgNotPresent);;
      throwIf (negb (eq_string (get payload "org_id")
                       (toString (ofString (organization o)))))
        (ValidatorError
           (OrgMismatch (toString (ofString (organization o)))
              (toString (get payload "org_id"))))
    else mret tt);; k)
  = outcome_of (violates Organization) k.
Proof. case_step. Qed.

Lemma step_expiration :
  (throwIf (negb (truthy (get payload "exp"))
            || negb (is_number (get payload "exp")))
     (ValidatorError ExpNotPresent);;
   throwIf (now >? numberOf (get payload "exp") + clockTol this)
     (ValidatorError
        (ExpExpired now (numberOf (get payload "exp") + clockTol this)));;
   k)
  = outcome_of (violates Expiration) k.
Proof. case_step. Qed.

Lemma step_issued_at :
  (throwIf (negb (truthy (get payload "iat"))
            || negb (is_number (get payload "iat")))
     (ValidatorError IatNotPresent);; k)
  = outcome_of (violates IssuedAt) k.
Proof. case_step. Qed.

Lemma step_nonce :
  ((if truthy (ofString (nonce o)) then
      throwIf (negb (truthy (get payload "nonce"))
               || negb (is_string (get payload "nonce")))
        (ValidatorError NonceNotPresent);;
      throwIf (negb (eq_string (get payload "nonce")
                       (toString (ofString (nonce o)))))
        (ValidatorError
           (NonceMismatch (toString (ofString (nonce o)))
              (toString (get payload "nonce"))))
    else mret tt);; k)
  = outcome_of (violates Nonce) k.
Proof. case_step. Qed.

Lemma more_than_one_entry {X} (items : list X) :
  (Z.of_nat (length items) >? 1)
  = match items with _ :: _ :: _ => true | _ => false end.
Proof.
  destruct items as [|x [|y rest]]; try reflexivity.
  cbn [length]. apply Z.gtb_lt. lia.
Qed.

Lemma step_authorized_party :
  ((if isArray (get payload "aud")
       && (Z.of_nat (length (arrayItems (get payload "aud"))) >? 1)
    then
      throwIf (negb (truthy (get payload "azp"))
               || negb (is_string (get payload "azp")))
        (ValidatorError AzpNotPresent);;
      throwIf (negb (eq_string (get payload "azp") (audience this)))
        (ValidatorError
           (AzpMismatch (audience this) (toString (get payload "azp"))))
    else mret tt);; k)
  = outcome_of (violates AuthorizedParty) k.
Proof.
  rewrite more_than_one_entry.
  unfold outcome_of, violation.
  destruct (get payload "aud") as [| | | | |[|x [|y rest]]|]; try reflexivity.
  case_step.
Qed.

Lemma step_authentication_time :
  ((if truthy (ofNumber (maxAge o)) then
      throwIf (negb (truthy (get payload "auth_time"))
               || negb (is_number (get payload "auth_time")))
        (ValidatorError AuthTimeNotPresent);;
      let authValidUntil :=
        numberOf (get payload "auth_time") + numberOf (ofNumber (maxAge o))
        + clockTol this in
      throwIf (now >? authValidUntil)
        (ValidatorError (AuthTimeExpired now authValidUntil))
    else mret tt);; k)
  = outcome_of (violates AuthenticationTime) k.
Proof. case_step. Qed.

Lemma first_violation_cons (c : Check) (cs : list Check) :
  outcome_of (first_violation this header payload o now (c :: cs)) k
  = outcome_of (violates c)
      (outcome_of (first_violation this header payload o now cs) k).
Proof. cbn. destruct (violates c); reflexivity. Qed.

End ValidatorSteps.

Section ValidatorProperties.
Import JS IdToken.

Variable jwtVerify :
  string -> KeyInput -> JWTVerifyOptions ->
  Completion Thrown (ProtectedHeader * gmap string JsValue).

(** The source and the step-by-step reading of the pipeline agree. *)
Lemma validate_eq (this : IDTokenValidator) idToken o dateNow :
  validate jwtVerify this idToken o dateNow
  = validate_pipeline jwtVerify this idToken o dateNow.
Proof.
  unfold validate, validate_pipeline, keyFor.
  destruct (jwtVerify _ _ _) as [[header payload]|e]; [|reflexivity].
  cbn [mbind Completion_bind].
  unfold pipeline. rewrite !first_violation_cons.
  set (now := dateNow `div` 1000).
  rewrite (step_algorithm this header payload o now).
  rewrite (step_issuer this header payload o now).
  rewrite (step_subject this header payload o now).
  rewrite (step_audience this header payload o now).
  rewrite (step_organization this header payload o now).
  rewrite (step_expiration this header payload o now).
  rewrite (step_issued_at this header payload o now).
  rewrite (step_nonce this header payload o now).
  rewrite (step_authorized_party this header payload o now).
  rewrite (step_authentication_time this header payload o now).
  reflexivity.
Qed.

(** On a verified token [validate] is the pipeline. *)
Lemma validate_verified (this : IDTokenValidator) idToken o dateNow
    header payload :
  jwtVerify idToken (keyFor this)
    {| vo_issuer := issuer this; vo_audience := audience this |}
  = Normal (header, payload) ->
  validate jwtVerify this idToken o dateNow
  = outcome_of
      (first_violation this header payload o (dateNow `div` 1000) pipeline)
      (Normal payload).
Proof.
  intros Hv. rewrite validate_eq. unfold validate_pipeline.
  rewrite Hv. reflexivity.
Qed.

Section Steps.
Variables (this : IDTokenValidator) (header : ProtectedHeader)
          (payload : gmap string JsValue) (o : ValidateOptions) (now : Z).

Local Abbreviation violates := (violation this header payload o now).
Local Abbreviation first := (first_violation this header payload o now).

Lemma first_violation_unfold c (cs : list Check) :
  first (c :: cs)
  = match violates c with Some e => Some e | None => first cs end.
Proof. reflexivity. Qed.

(** Steps that find nothing wrong are skipped over. *)
Lemma first_violation_app (before rest : list Check) :
  Forall (fun c => violates c = None) before ->
  first (before ++ rest)%list = first rest.
Proof.
  induction 1 as [|c before Hc _ IH]; [reflexivity|].
  cbn. rewrite Hc. exact IH.
Qed.

Lemma first_violation_at (before after : list Check) c e :
  Forall (fun c' => violates c' = None) before ->
  violates c = Some e ->
  first (before ++ c :: after)%list = Some e.
Proof.
  intros Hb Hc. rewrite first_violation_app by assumption.
  cbn. rewrite Hc. reflexivity.
Qed.

Lemma first_violation_none (cs : list Check) :
  Forall (fun c => violates c = None) cs -> first cs = None.
Proof.
  intros H. rewrite <- (app_nil_r cs).
  rewrite first_violation_app by assumption. reflexivity.
Qed.

(** Where the first violation of a list of steps sits. *)
Lemma first_violation_inv (cs : list Check) :
  match first cs with
  | None => Forall (fun c => violates c = None) cs
  | Some e =>
      exists before c after,
        cs = (before ++ c :: after)%list
        /\ Forall (fun c' => violates c' = None) before
        /\ violates c = Some e
  end.
Proof.
  induction cs as [|c cs IH]; cbn; [constructor|].
  destruct (violates c) as [e|] eqn:Hc.
  - exists [], c, cs. repeat split; [constructor | assumption].
  - destruct (first cs) as [e|].
    + destruct IH as (before & c' & after & -> & Hb & Hc').
      exists (c :: before), c', after.
      repeat split; [constructor; assumption | assumption].
    + constructor; assumption.
Qed.

(** The error of a step belongs to that step. *)
Lemma violation_check_of c e : violates c = Some e -> check_of e = c.
Proof.
  destruct c; unfold violation;
    repeat match goal with
           | |- context [match ?x with _ => _ end] => destruct x
           end;
    intros [= <-]; reflexivity.
Qed.

End Steps.


Lemma startsWith_self (p t : string) : startsWith p (p +:+ t) = true.
Proof.
  induction p as [|a p IH]; [reflexivity|].
  change (String a p +:+ t) with (String a (p +:+ t)). cbn [startsWith].
  rewrite bool_decide_eq_true_2 by reflexivity. exact IH.
Qed.

Lemma includesString_startsWith (p s : string) :
  startsWith p s = true -> includesString p s = true.
Proof. intros H. destruct s; cbn [includesString]; rewrite H; reflexivity. Qed.


Lemma includesString_append_r (p s t : string) :
  includesString p t = true -> includesString p (s +:+ t) = true.
Proof.
  intros H. induction s as [|b s IH]; [exact H|].
  change (String b s +:+ t) with (String b (s +:+ t)).
  cbn [includesString]. rewrite IH. apply orb_true_r.
Qed.


Lemma message_names_algorithm (found expected : string) :
  includesString found (message (AlgNotSupported found expected)) = true.
Proof.
  unfold message. do 2 apply includesString_append_r.
  apply includesString_startsWith, startsWith_self.
Qed.


(** C5.  On a token that [jwtVerify] accepts (its signature verifies
    under the key that was used) and whose protected header names an
    algorithm other than the configured one, [validate] raises the
    error that names the unsupported algorithm. *)
Theorem algorithm_mismatch_rejected
    (this : IDTokenValidator) idToken o dateNow header payload :
  jwtVerify idToken (keyFor this)
    {| vo_issuer := issuer this; vo_audience := audience this |}
  = Normal (header, payload) ->
  header_alg header <> alg this ->
  validate jwtVerify this idToken o dateNow
  = Throw (ValidatorError (AlgNotSupported (header_alg header) (alg this)))
  /\ message (AlgNotSupported (header_alg header) (alg this))
     = "Signature algorithm of " +:+ dq +:+ header_alg header +:+ dq
       +:+ " is not supported. Expected the ID token to be signed with "
       +:+ dq +:+ alg this +:+ dq +:+ "."
  /\ includesString (header_alg header)
       (message (AlgNotSupported (header_alg header) (alg this))) = true.
Proof.
  intros Hv Halg.
  split; [|split; [reflexivity | apply message_names_algorithm]].
  rewrite (validate_verified _ _ _ _ _ _ Hv).
  cbn [pipeline first_violation violation].
  rewrite bool_decide_eq_false_2 by assumption. reflexivity.
Qed.

(** C6.  On a verified token that reaches the authorized-party step,
    that is, one that passes every step before it, and whose [aud]
    claim is an array with more than one entry, [validate] raises an
    authorized-party error unless the [azp] claim is a string, present
    as the source tests presence, and equal to the client id, in which
    case the step passes.  When [aud] is a string or an
    array with one entry the step is not performed: [validate] is the
    pipeline without it, and a token without [azp] that passes the
    other steps is accepted. *)
Theorem authorized_party_step
    (this : IDTokenValidator) idToken o dateNow header payload :
  jwtVerify idToken (keyFor this)
    {| vo_issuer := issuer this; vo_audience := audience this |}
  = Normal (header, payload) ->
  let now := dateNow `div` 1000 in
  let violates := violation this header payload o now in
  let azp_ok :=
    get payload "azp" = JString (audience this) /\ audience this <> "" in
  (forall items,
      get payload "aud" = JArray items ->
      (1 < length items)%nat ->
      Forall (fun c => violates c = None)
        [ SignatureAlgorithm; Issuer; Subject; Audience; Organization;
          Expiration; IssuedAt; Nonce ] ->
      (azp_ok ->
       violates AuthorizedParty = None
       /\ validate jwtVerify this idToken o dateNow
          = outcome_of (violates AuthenticationTime) (Normal payload))
      /\ (~ azp_ok ->
          exists e,
            check_of e = AuthorizedParty
            /\ violates AuthorizedParty = Some e
            /\ validate jwtVerify this idToken o dateNow
               = Throw (ValidatorError e)))
  /\ ((exists s, get payload "aud" = JString s)
      \/ (exists entry, get payload "aud" = JArray [entry]) ->
      violates AuthorizedParty = None
      /\ validate jwtVerify this idToken o dateNow
         = outcome_of
             (first_violation this header payload o now
                [ SignatureAlgorithm; Issuer; Subject; Audience;
                  Organization; Expiration; IssuedAt; Nonce;
                  AuthenticationTime ])
             (Normal payload)
      /\ (get payload "azp" = JUndefined ->
          (forall c, c <> AuthorizedParty -> violates c = None) ->
          validate jwtVerify this idToken o dateNow = Normal payload)).
Proof.
  intros Hv now violates azp_ok.
  rewrite (validate_verified _ _ _ _ _ _ Hv). fold now.
  change pipeline with
    ([ SignatureAlgorithm; Issuer; Subject; Audience; Organization;
       Expiration; IssuedAt; Nonce ]
       ++ AuthorizedParty :: [AuthenticationTime])%list.
  split.
  - intros items Haud Hlen Hbefore.
    destruct items as [|x [|y rest]]; cbn in Hlen; try lia.
    split.
    + intros [Hazp Hne].
      assert (Hstep : violates AuthorizedParty = None).
      { unfold violates. cbn. rewrite Haud, Hazp.
        rewrite bool_decide_eq_false_2 by assumption.
        rewrite bool_decide_eq_true_2 by reflexivity. reflexivity. }
      split; [exact Hstep|].
      rewrite first_violation_app by assumption.
      rewrite !first_violation_unfold. fold violates. rewrite Hstep.
      destruct (violates AuthenticationTime); reflexivity.
    + intros Hbad.
      assert (Hstep : exists e, violates AuthorizedParty = Some e).
      { unfold violates. cbn. rewrite Haud.
        destruct (get payload "azp") as [| | | |s| |] eqn:Hazp; eauto.
        destruct (bool_decide (s = "")) eqn:Hs; eauto.
        destruct (bool_decide (s = audience this)) eqn:Heq; eauto.
        exfalso. apply Hbad. unfold azp_ok.
        apply bool_decide_eq_true_1 in Heq. subst s.
        apply bool_decide_eq_false_1 in Hs. split; [reflexivity|exact Hs]. }
      destruct Hstep as [e He]. exists e.
      split; [eapply violation_check_of; exact He|].
      split; [exact He|].
      rewrite (first_violation_at _ _ _ _ _ _ _ _ e Hbefore He).
      reflexivity.
  - intros Haud.
    assert (Hstep : violates AuthorizedParty = None).
    { unfold violates. cbn.
      destruct Haud as [[s ->]|[entry ->]]; reflexivity. }
    split; [exact Hstep|]. split.
    + cbn [app]. rewrite !first_violation_unfold. fold violates.
      rewrite Hstep. reflexivity.
    + intros _ Hothers.
      rewrite first_violation_none; [reflexivity|].
      repeat constructor; try exact Hstep; apply Hothers; discriminate.
Qed.

(** C10.  An expected nonce that is the empty string, an expected
    [maxAge] of zero and an expected organization that is the empty
    string each leave [validate] exactly as it is without that
    expectation. *)
Theorem falsy_expectation_is_no_expectation
    (this : IDTokenValidator) idToken o dateNow :
  validate jwtVerify this idToken
    {| nonce := Some ""; maxAge := maxAge o;
       organization := organization o |} dateNow
  = validate jwtVerify this idToken
      {| nonce := None; maxAge := maxAge o;
         organization := organization o |} dateNow
  /\ validate jwtVerify this idToken
       {| nonce := nonce o; maxAge := Some 0;
          organization := organization o |} dateNow
     = validate jwtVerify this idToken
         {| nonce := nonce o; maxAge := None;
            organization := organization o |} dateNow
  /\ validate jwtVerify this idToken
       {| nonce := nonce o; maxAge := maxAge o;
          organization := Some "" |} dateNow
     = validate jwtVerify this idToken
         {| nonce := nonce o; maxAge := maxAge o;
            organization := None |} dateNow.
Proof. repeat split; reflexivity. Qed.

End ValidatorProperties.

Section ValidatorExamples.
Import JS IdToken.

Local Ltac run := vm_compute; reflexivity.

(** The sample token shortly before it expires. *)
Example sample_accepted :
  validateAt RS256 samplePayload sampleValidator noExpectation 1699999000
  = Normal samplePayload.
Proof. run. Qed.

(** A token of another tenant does not get past [jwtVerify]. *)
Example foreign_token :
  validateAt RS256 foreignPayload sampleValidator noExpectation 1699999000
  = Throw (JoseError ERR_JWT_CLAIM_VALIDATION_FAILED).
Proof. run. Qed.

Example organization_expected :
  validateAt RS256 samplePayload sampleValidator
    {| nonce := None; maxAge := None; organization := Some "org_123" |}
    1699999000
  = Throw (ValidatorError OrgNotPresent).
Proof. run. Qed.

Example two_clients_with_azp_accepted :
  isNormal
    (validateAt RS256 (<[ "azp" := JString "client-a" ]> twoClientsPayload)
       sampleValidator noExpectation 1699999000)
  = true.
Proof. run. Qed.

Example zero_iat_refused :
  validateAt RS256 (<[ "iat" := JNumber 0 ]> samplePayload)
    sampleValidator noExpectation 1699999000
  = Throw (ValidatorError IatNotPresent).
Proof. run. Qed.

Example stale_authentication :
  validateAt RS256 (<[ "auth_time" := JNumber 1699990000 ]> samplePayload)
    sampleValidator
    {| nonce := None; maxAge := Some 3600; organization := None |}
    1699999000
  = Throw (ValidatorError (AuthTimeExpired 1699999000 1699993660)).
Proof. run. Qed.

Example secret_for_HS256 :
  keyFor (constructor {| domain := "tenant.example.com";
                         clientId := "client-a";
                         clientSecret := Some "s3cret";
                         idTokenSigningAlg := Some "HS256";
                         clockTolerance := Some 5 |})
  = SharedSecret "s3cret".
Proof. run. Qed.

(** The sample token under an [HS256] header, for a validator that
    expects [RS256]. *)
Lemma algorithm_mismatch_witness :
  validate (verified {| header_alg := "HS256" |} samplePayload)
    sampleValidator "id-token" noExpectation 1700000000000
  = Throw (ValidatorError (AlgNotSupported "HS256" "RS256")).
Proof.
  apply (algorithm_mismatch_rejected
           (verified {| header_alg := "HS256" |} samplePayload)
           sampleValidator "id-token" noExpectation 1700000000000
           {| header_alg := "HS256" |} samplePayload);
    [reflexivity | discriminate].
Defined.

(** A token for [client-a] and [client-b] without [azp], otherwise
    valid, one second before it expires. *)
Lemma authorized_party_witness :
  exists e,
    check_of e = AuthorizedParty
    /\ violation sampleValidator RS256 twoClientsPayload noExpectation
         (1699999999000 `div` 1000) AuthorizedParty = Some e
    /\ validate (jwtVerifyAt (signed RS256 twoClientsPayload) 1699999999)
         sampleValidator "id-token" noExpectation 1699999999000
       = Throw (ValidatorError e).
Proof.
  apply (authorized_party_step
           (jwtVerifyAt (signed RS256 twoClientsPayload) 1699999999)
           sampleValidator "id-token" noExpectation 1699999999000
           RS256 twoClientsPayload)
    with (items := [JString "client-a"; JString "client-b"]).
  - run.
  - run.
  - cbn; lia.
  - repeat constructor; run.
  - intros [Hazp _]. vm_compute in Hazp. discriminate.
Defined.

End ValidatorExamples.

(** * Properties of the request runtime *)

Section Strings.
Import JS Runtime.

Lemma append_cons a (s t : string) : String a s +:+ t = String a (s +:+ t).
Proof. reflexivity. Qed.

Lemma append_empty_r (s : string) : s +:+ "" = s.
Proof.
  induction s as [|a s IH]; [reflexivity|].
  rewrite append_cons, IH. reflexivity.
Qed.

Lemma contains_append c (s t : string) :
  contains c (s +:+ t) = contains c s || contains c t.
Proof.
  induction s as [|a s IH]; [reflexivity|].
  rewrite append_cons. cbn [contains]. rewrite IH. apply orb_assoc.
Qed.

Lemma lastChar_None (s : string) : lastChar s = None -> s = "".
Proof.
  induction s as [|a s IH]; [reflexivity|].
  destruct s as [|b s]; [discriminate|].
  intros H. specialize (IH H). discriminate.
Qed.

Lemma lastChar_append (s t : string) :
  lastChar (s +:+ t)
  = match lastChar t with Some c => Some c | None => lastChar s end.
Proof.
  induction s as [|a s IH].
  - change ("" +:+ t) with t. destruct (lastChar t); reflexivity.
  - rewrite append_cons. destruct s as [|b s].
    + change ("" +:+ t) with t. destruct t as [|b t]; [reflexivity|].
      change (lastChar (String a (String b t))) with (lastChar (String b t)).
      destruct (lastChar (String b t)) eqn:E; [reflexivity|].
      apply lastChar_None in E. discriminate E.
    + rewrite append_cons in *.
      change (lastChar (String a (String b (s +:+ t))))
        with (lastChar (String b (s +:+ t))).
      rewrite IH. reflexivity.
Qed.

Lemma lastChar_contains (s : string) c :
  lastChar s = Some c -> contains c s = true.
Proof.
  induction s as [|a s IH]; [discriminate|].
  destruct s as [|b s].
  - intros [= ->]. cbn. rewrite bool_decide_eq_true_2 by reflexivity.
    reflexivity.
  - intros H. change (contains c (String a (String b s)))
      with (bool_decide (a = c) || contains c (String b s)).
    rewrite IH by exact H. apply orb_true_r.
Qed.

(** A percent-encoded byte and an unreserved character are never a
    question mark. *)
Lemma percentEncode_no_question (a : ascii) :
  contains "?" (percentEncode a) = false.
Proof. destruct a as [[] [] [] [] [] [] [] []]; reflexivity. Qed.

Lemma unreserved_no_question (a : ascii) :
  isUnreserved a = true -> contains "?" (String a "") = false.
Proof.
  destruct a as [[] [] [] [] [] [] [] []]; intros H;
    first [reflexivity | discriminate H].
Qed.

Lemma encodeURIComponent_no_question (s : string) :
  contains "?" (encodeURIComponent s) = false.
Proof.
  induction s as [|a s IH]; [reflexivity|].
  cbn [encodeURIComponent]. rewrite contains_append, IH, orb_false_r.
  destruct (isUnreserved a) eqn:E.
  - apply unreserved_no_question, E.
  - apply percentEncode_no_question.
Qed.

Lemma join_no_char c sep (parts : list string) :
  contains c sep = false ->
  Forall (fun p => contains c p = false) parts ->
  contains c (join sep parts) = false.
Proof.
  intros Hsep. induction 1 as [|p parts Hp Hparts IH]; [reflexivity|].
  destruct parts as [|q parts]; [exact Hp|].
  change (join sep (p :: q :: parts))
    with (p +:+ sep +:+ join sep (q :: parts)).
  rewrite !contains_append, Hp, Hsep, IH. reflexivity.
Qed.

Lemma querystringSingleKey_no_question key value :
  contains "?" (querystringSingleKey key value) = false.
Proof.
  assert (Hscalar :
    contains "?"
      (encodeURIComponent key +:+ "=" +:+ encodeURIComponent (toString value))
    = false).
  { rewrite !contains_append, !encodeURIComponent_no_question.
    reflexivity. }
  destruct value; try exact Hscalar.
  unfold querystringSingleKey.
  rewrite !contains_append, encodeURIComponent_no_question.
  rewrite join_no_char; [reflexivity | |].
  - rewrite !contains_append, encodeURIComponent_no_question. reflexivity.
  - apply Forall_map, Forall_true. intros v.
    apply encodeURIComponent_no_question.
Qed.

Lemma querystringSingleKey_nonempty key value :
  (0 <? String.length (querystringSingleKey key value))%nat = true.
Proof.
  assert (H : forall s t : string,
             (0 <? String.length (s +:+ "=" +:+ t))%nat = true).
  { intros s t. destruct s; reflexivity. }
  destruct value; apply H.
Qed.

Lemma querystring_no_question (q : HTTPQuery) :
  contains "?" (querystring q) = false.
Proof.
  unfold querystring. apply join_no_char; [reflexivity|].
  apply List.Forall_forall. intros part Hin.
  apply List.filter_In in Hin as [Hin _].
  apply List.in_map_iff in Hin as [[key value] [<- _]].
  apply querystringSingleKey_no_question.
Qed.

Lemma querystring_nonempty (q : HTTPQuery) :
  q <> [] -> querystring q <> "".
Proof.
  destruct q as [|[key value] q]; [contradiction|]. intros _.
  unfold querystring. cbn [map List.filter fst snd].
  rewrite querystringSingleKey_nonempty.
  destruct (querystringSingleKey key value) as [|a s] eqn:E.
  - pose proof (querystringSingleKey_nonempty key value) as H.
    rewrite E in H. discriminate H.
  - destruct (List.filter _ _); discriminate.
Qed.

End Strings.

Section ExecutorProperties.
Import JS Runtime.

Context {Sigma : Type}.
Variable JSON_stringify : InitValue -> InitValue.
Variable retryFn :
  @M Sigma Response -> gmap string JsValue -> @M Sigma Response.

Implicit Types (this : @BaseAPI Sigma) (w : @World Sigma).

(** [fetchWithTimeout] calls the transport once, turns an
    [AbortError] into a [TimeoutError] and clears its timer. *)
Lemma fetchWithTimeout_run this url init w :
  fetchWithTimeout this url init w
  = (match fst (this_fetchApi this url (guarded init w) (env w)) with
     | Normal r => Normal r
     | Throw e => Throw (if instanceof_AbortError e then TimeoutError else e)
     end,
     {| env := snd (this_fetchApi this url (guarded init w) (env w));
        nextId := S (nextId w);
        timers :=
          List.filter (fun t => negb (t =? nextId w)%nat) (timers w);
        transportCalls := (transportCalls w ++ [(url, guarded init w)])%list;
        parseErrorCalls := parseErrorCalls w |}).
Proof.
  unfold fetchWithTimeout, bind, armTimeout, tryFinally, tryCatch,
    callTransport, clearTimeout, throw, guarded.
  cbn [env nextId timers transportCalls parseErrorCalls].
  destruct (this_fetchApi this url _ (env w)) as [[r|e] s];
    cbn [fst snd env nextId timers transportCalls parseErrorCalls
         List.filter];
    rewrite ?Nat.eqb_refl; cbn [negb]; [reflexivity|].
  destruct (instanceof_AbortError e);
    cbn [env nextId timers transportCalls parseErrorCalls List.filter];
    rewrite ?Nat.eqb_refl; reflexivity.
Qed.

(** C8.  With [enabled] explicitly [false] in the retry setting, the
    exchange is one call of [fetchWithTimeout]: the transport is called
    exactly once and its error (a [TimeoutError] for an abort)
    propagates with no further attempt; without middleware the whole of
    [fetch] makes that single call.  In every other configuration,
    also when there is no retry setting, the exchange is [retry]
    applied to [fetchWithTimeout] and to a copy of the retry
    setting. *)
Theorem exchange_retry_switch this fetchParams :
  (forall r,
      retry (configuration this) = Some r ->
      r !! "enabled" = Some (JBool false) ->
      exchange retryFn this fetchParams
      = fetchWithTimeout this (fp_url fetchParams) (fp_init fetchParams)
      /\ (forall w,
            transportCalls (snd (exchange retryFn this fetchParams w))
            = (transportCalls w
               ++ [(fp_url fetchParams, guarded (fp_init fetchParams) w)])%list)
      /\ (forall w e s,
            this_fetchApi this (fp_url fetchParams)
              (guarded (fp_init fetchParams) w) (env w) = (Throw e, s) ->
            fst (exchange retryFn this fetchParams w)
            = Throw (if instanceof_AbortError e then TimeoutError else e))
      /\ (forall w e s,
            this_middleware this = [] ->
            this_fetchApi this (fp_url fetchParams)
              (guarded (fp_init fetchParams) w) (env w) = (Throw e, s) ->
            let cause :=
              if instanceof_AbortError e then TimeoutError else e in
            fst (fetch retryFn this (fp_url fetchParams)
                   (fp_init fetchParams) w) = Throw (unrecovered cause)
            /\ transportCalls
                   (snd (fetch retryFn this (fp_url fetchParams)
                           (fp_init fetchParams) w))
               = (transportCalls w
                  ++ [(fp_url fetchParams,
                       guarded (fp_init fetchParams) w)])%list))
  /\ (retry (configuration this) = None
      \/ (exists r, retry (configuration this) = Some r
                    /\ r !! "enabled" <> Some (JBool false)) ->
      exchange retryFn this fetchParams
      = retryFn
          (fetchWithTimeout this (fp_url fetchParams) (fp_init fetchParams))
          (default ∅ (retry (configuration this)))).
Proof.
  split.
  - intros r Hr Hoff.
    assert (Hex : forall fp,
               exchange retryFn this fp
               = fetchWithTimeout this (fp_url fp) (fp_init fp)).
    { intros fp. unfold exchange, retryEnabled, get.
      rewrite Hr, Hoff. reflexivity. }
    split; [apply Hex|]. rewrite Hex.
    split; [|split].
    + intros w. rewrite fetchWithTimeout_run. reflexivity.
    + intros w e s He. rewrite fetchWithTimeout_run, He. reflexivity.
    + intros w e s Hmw He.
      unfold fetch, onFailure. rewrite Hmw. cbn [forOf].
      unfold bind, ret, tryCatch. rewrite Hex. cbn [fp_url fp_init].
      rewrite fetchWithTimeout_run, He. cbn [fst snd].
      unfold unrecovered.
      destruct (instanceof_Error
                  (if instanceof_AbortError e then TimeoutError else e));
        split; reflexivity.
  - intros Hon. unfold exchange, retryEnabled.
    destruct Hon as [-> | (r & -> & Hr)]; [reflexivity|].
    unfold get. destruct (r !! "enabled") as [[| |[|]| | | |]|];
      try reflexivity.
    contradiction Hr. reflexivity.
Qed.

(** C1 (amended).  When the exchange fails with cause [e] and the
    [onError] hooks complete without supplying a response, [fetch]
    raises the transport-failure error [FetchError] wrapping [e] if
    [e] is an [Error], and [e] itself otherwise.  A [TimeoutError],
    which is what the timeout guard makes of an aborted transport
    call, is wrapped like any other error: it reaches the caller as
    the cause inside the [FetchError]. *)
Theorem failed_exchange_is_wrapped this url init w0 fetchParams w1 e w2 w3 :
  forOf (preStep this) (this_middleware this)
    {| fp_url := url; fp_init := init |} w0
  = (Normal fetchParams, w1) ->
  exchange retryFn this fetchParams w1 = (Throw e, w2) ->
  forOf (onErrorStep this fetchParams e) (this_middleware this) None w2
  = (Normal None, w3) ->
  fetch retryFn this url init w0
  = (Throw (if instanceof_Error e
            then FetchError e interceptorsFailed else e), w3)
  /\ (e = TimeoutError ->
      fetch retryFn this url init w0
      = (Throw (FetchError TimeoutError interceptorsFailed), w3))
  /\ (forall u i w s,
        this_fetchApi this u (guarded i w) (env w) = (Throw AbortError, s) ->
        fst (fetchWithTimeout this u i w) = Throw TimeoutError)
  /\ (retryEnabled this = false ->
      forall s,
        this_fetchApi this (fp_url fetchParams)
          (guarded (fp_init fetchParams) w1) (env w1)
        = (Throw AbortError, s) ->
        e = TimeoutError).
Proof.
  intros Hpre Hex Herr.
  assert (Hfetch :
    fetch retryFn this url init w0
    = (Throw (if instanceof_Error e
              then FetchError e interceptorsFailed else e), w3)).
  { unfold fetch, bind. rewrite Hpre. unfold tryCatch. rewrite Hex.
    unfold onFailure, bind. rewrite Herr.
    destruct (instanceof_Error e); reflexivity. }
  split; [exact Hfetch|]. split; [|split].
  - intros ->. exact Hfetch.
  - intros u i w s Habort. rewrite fetchWithTimeout_run, Habort.
    reflexivity.
  - intros Hoff s Habort. unfold exchange in Hex. rewrite Hoff in Hex.
    rewrite fetchWithTimeout_run, Habort in Hex. cbn in Hex.
    congruence.
Qed.

(** C2.  Once the exchange has completed with a response, [request]
    returns that response exactly when its status is at least 200 and
    below 300, without calling the error parser; for any other status
    it calls the error parser on the response, once, and raises the
    error the parser produces. *)
Theorem request_status_dispatch this context initOverrides
    w0 url init w1 response w2 :
  createFetchParams JSON_stringify this context initOverrides w0
  = (Normal (url, init), w1) ->
  fetch retryFn this url init w1 = (Normal response, w2) ->
  let result :=
    request JSON_stringify retryFn this context initOverrides w0 in
  let parsed := this_parseError this response (env w2) in
  (200 <= status response < 300 ->
   result = (Normal response, w2))
  /\ (~ 200 <= status response < 300 ->
      exists error,
        (fst parsed = Normal error \/ fst parsed = Throw error)
        /\ result
           = (Throw error,
              {| env := snd parsed; nextId := nextId w2;
                 timers := timers w2;
                 transportCalls := transportCalls w2;
                 parseErrorCalls :=
                   (parseErrorCalls w2 ++ [response])%list |}))
  /\ (fst result = Normal response <-> 200 <= status response < 300)
  /\ parseErrorCalls (snd result)
     = (parseErrorCalls w2
        ++ (if (status response >=? 200) && (status response <? 300)
            then [] else [response]))%list.
Proof.
  intros Hparams Hfetch result parsed.
  assert (Hrun :
    result
    = if (status response >=? 200) && (status response <? 300)
      then (Normal response, w2)
      else (Throw match fst parsed with Normal e | Throw e => e end,
            {| env := snd parsed; nextId := nextId w2;
               timers := timers w2;
               transportCalls := transportCalls w2;
               parseErrorCalls :=
                 (parseErrorCalls w2 ++ [response])%list |})).
  { unfold result, request, bind. rewrite Hparams, Hfetch.
    destruct ((status response >=? 200) && (status response <? 300));
      [reflexivity|].
    unfold callParseError, throw, parsed.
    destruct (this_parseError this response (env w2)) as [[e|e] s];
      reflexivity. }
  assert (Hrange :
    (status response >=? 200) && (status response <? 300) = true
    <-> 200 <= status response < 300).
  { rewrite andb_true_iff, Z.geb_le, Z.ltb_lt. lia. }
  rewrite Hrun.
  destruct ((status response >=? 200) && (status response <? 300)) eqn:E.
  - assert (Hin : 200 <= status response < 300)
      by (apply Hrange; reflexivity).
    repeat split; try tauto.
    cbn. rewrite app_nil_r. reflexivity.
  - assert (Hout : ~ 200 <= status response < 300).
    { intros H. apply Hrange in H. discriminate H. }
    split; [tauto|]. split; [|split].
    + intros _. destruct (fst parsed) as [e|e] eqn:Ep;
        exists e; (split; [tauto | reflexivity]).
    + cbn. split; [discriminate | tauto].
    + reflexivity.
Qed.

(** C7 (amended).  With no query map, or an empty one, the built URL
    is exactly the base URL followed by the path: nothing is appended.
    With at least one key it is that URL, a question mark and the
    query string; the query string is then not empty and holds no
    question mark, so the URL does not end in one.  A question mark
    and a query string are appended exactly when the query map has a
    key. *)
Theorem createFetchParams_url this context initOverrides w url init w' :
  createFetchParams JSON_stringify this context initOverrides w
  = (Normal (url, init), w') ->
  let base := baseUrl (configuration this) +:+ path context in
  (query context = None \/ query context = Some [] -> url = base)
  /\ (forall q,
        query context = Some q -> q <> [] ->
        url = base +:+ "?" +:+ querystring q
        /\ querystring q <> ""
        /\ contains "?" (querystring q) = false
        /\ lastChar url <> Some "?"%char)
  /\ ((exists qs, url = base +:+ "?" +:+ qs)
      <-> (exists q, query context = Some q /\ q <> [])).
Proof.
  intros Hrun base.
  assert (Hurl :
    url = match query context with
          | None | Some [] => base
          | Some q => base +:+ "?" +:+ querystring q
          end).
  { unfold createFetchParams, bind, ret in Hrun.
    match type of Hrun with
    | (let (_, _) := ?c in _) = _ => destruct c as [[override|e] w'']
    end; [|discriminate Hrun].
    injection Hrun as <- _ _.
    destruct (query context) as [[|kv q]|]; reflexivity. }
  split; [|split].
  - intros [Hq|Hq]; rewrite Hq in Hurl; exact Hurl.
  - intros q Hq Hne. rewrite Hq in Hurl.
    destruct q as [|kv q]; [contradiction|].
    split; [exact Hurl|].
    split; [apply querystring_nonempty; discriminate|].
    split; [apply querystring_no_question|].
    rewrite Hurl, !lastChar_append.
    destruct (lastChar (querystring (kv :: q))) as [c|] eqn:El.
    + intros [= ->]. apply lastChar_contains in El.
      rewrite querystring_no_question in El. discriminate El.
    + apply lastChar_None in El.
      exfalso. revert El. apply querystring_nonempty. discriminate.
  - split.
    + intros [qs Hqs]. destruct (query context) as [[|kv q]|].
      2: { exists (kv :: q). split; [reflexivity | discriminate]. }
      all: exfalso; rewrite Hurl in Hqs;
        rewrite <- (append_empty_r base) in Hqs at 1;
        apply (String.app_inj base) in Hqs; discriminate Hqs.
    + intros (q & Hq & Hne). rewrite Hq in Hurl.
      destruct q as [|kv q]; [contradiction|].
      eexists. exact Hurl.
Qed.

End ExecutorProperties.

Section ExecutorExamples.
Import JS Runtime.

Local Ltac run := vm_compute; reflexivity.

Example get_log_200 :
  request stringifyUndefined oneAttempt (sampleApi (answering ok200) None)
    getLog None start
  = (Normal ok200, afterOneCall).
Proof. run. Qed.

Example query_string_sample :
  builtUrl (createFetchParams stringifyUndefined
              (sampleApi (answering ok200) None) searchLogs None start)
  = Some "https://tenant.example.com/api/v2/logs?page=2&q=type%3As%3F".
Proof. run. Qed.

(** Under a [retry] that tries twice, a failing exchange is attempted
    twice by default and once when retries are disabled. *)
Example attempts_by_retry_setting :
  attempts (fetch twoAttempts
              (sampleApi (failing (OtherError "FetchError" "ECONNRESET"))
                 None)
              getLogUrl getLogInit start) = 2%nat
  /\ attempts (fetch twoAttempts
                 (sampleApi (failing (OtherError "FetchError" "ECONNRESET"))
                    retriesDisabled)
                 getLogUrl getLogInit start) = 1%nat.
Proof. split; run. Qed.

(** A transport call aborted by the timeout, retries disabled, no
    middleware. *)
Lemma failed_exchange_witness :
  fetch oneAttempt (sampleApi (failing AbortError) retriesDisabled)
    getLogUrl getLogInit start
  = (Throw (FetchError TimeoutError interceptorsFailed), afterOneCall).
Proof.
  apply (failed_exchange_is_wrapped oneAttempt
           (sampleApi (failing AbortError) retriesDisabled)
           getLogUrl getLogInit start
           {| fp_url := getLogUrl; fp_init := getLogInit |} start
           TimeoutError afterOneCall afterOneCall);
    run.
Defined.

(** C1 as stated fails on a timeout: without middleware, a transport
    call aborted by the timeout makes the executor raise the
    transport-failure error, with the timeout error as its cause. *)
Lemma timeout_counterexample :
  this_middleware (sampleApi (failing AbortError) retriesDisabled) = []
  /\ fst (this_fetchApi (sampleApi (failing AbortError) retriesDisabled)
            getLogUrl (guarded getLogInit start) tt)
     = Throw AbortError
  /\ thrownBy (request stringifyUndefined oneAttempt
                 (sampleApi (failing AbortError) retriesDisabled)
                 getLog None start)
     = Some (FetchError TimeoutError interceptorsFailed)
  /\ FetchError TimeoutError interceptorsFailed <> TimeoutError.
Proof. repeat split; try run. discriminate. Qed.

(** [GET /logs/5] answered with 500, and with 200. *)
Lemma request_status_witness :
  request stringifyUndefined oneAttempt
    (sampleApi (answering error500) None) getLog None start
  = (Throw (OtherError "ManagementApiError" "Internal Server Error"),
     {| env := tt; nextId := 1; timers := [];
        transportCalls := [(getLogUrl, guarded getLogInit start)];
        parseErrorCalls := [error500] |})
  /\ request stringifyUndefined oneAttempt
       (sampleApi (answering ok200) None) getLog None start
     = (Normal ok200, afterOneCall).
Proof.
  split.
  - destruct (request_status_dispatch stringifyUndefined oneAttempt
                (sampleApi (answering error500) None) getLog None start
                getLogUrl getLogInit start error500 afterOneCall)
      as (_ & Hbad & _); [run | run |].
    destruct Hbad as (error & Hparsed & ->); [cbn; lia|].
    destruct Hparsed as [[= <-] | Hthrow]; [reflexivity|].
    discriminate Hthrow.
  - apply (request_status_dispatch stringifyUndefined oneAttempt
             (sampleApi (answering ok200) None) getLog None start
             getLogUrl getLogInit start ok200 afterOneCall);
      [run | run | cbn; lia].
Defined.

(** The URL of a request with two query parameters, and of one with
    none. *)
Lemma createFetchParams_url_witness :
  lastChar "https://tenant.example.com/api/v2/logs?page=2&q=type%3As%3F"
  <> Some "?"%char
  /\ "https://tenant.example.com/api/v2/logs/5"
     = sampleBase +:+ "/logs/5".
Proof.
  split.
  - apply (createFetchParams_url stringifyUndefined
             (sampleApi (answering ok200) None) searchLogs None start
             "https://tenant.example.com/api/v2/logs?page=2&q=type%3As%3F"
             getLogInit start)
      with (q := [("page", JNumber 2); ("q", JString "type:s?")]);
      [run | reflexivity | discriminate].
  - apply (createFetchParams_url stringifyUndefined
             (sampleApi (answering ok200) None) getLog None start
             "https://tenant.example.com/api/v2/logs/5"
             getLogInit start);
      [run | left; reflexivity].
Defined.

(** C7 as stated fails on a path that itself ends in a question mark:
    with no query map the URL is the base URL and the path, and it
    ends in the question mark of the path. *)
Lemma trailing_question_counterexample :
  query oddPath = None
  /\ builtUrl (createFetchParams stringifyUndefined
                 (sampleApi (answering ok200) None) oddPath None start)
     = Some "https://tenant.example.com/api/v2/logs?"
  /\ lastChar "https://tenant.example.com/api/v2/logs?" = Some "?"%char.
Proof. repeat split; run. Qed.

(** The exchange with retries disabled, and with no retry setting. *)
Lemma exchange_retry_switch_witness :
  exchange oneAttempt (sampleApi (answering ok200) retriesDisabled)
    {| fp_url := getLogUrl; fp_init := getLogInit |}
  = fetchWithTimeout (sampleApi (answering ok200) retriesDisabled)
      getLogUrl getLogInit
  /\ exchange twoAttempts (sampleApi (answering ok200) None)
       {| fp_url := getLogUrl; fp_init := getLogInit |}
     = twoAttempts
         (fetchWithTimeout (sampleApi (answering ok200) None)
            getLogUrl getLogInit) ∅.
Proof.
  split.
  - apply (exchange_retry_switch oneAttempt
             (sampleApi (answering ok200) retriesDisabled)
             {| fp_url := getLogUrl; fp_init := getLogInit |})
      with (r := {[ "enabled" := JBool false ]}); run.
  - apply (exchange_retry_switch twoAttempts
             (sampleApi (answering ok200) None)
             {| fp_url := getLogUrl; fp_init := getLogInit |}).
    left. reflexivity.
Defined.

End ExecutorExamples.

(** * Further properties of the ID-token validator *)

Section ValidatorCoverage.
Import JS IdToken.

Variable jwtVerify :
  string -> KeyInput -> JWTVerifyOptions ->
  Completion Thrown (ProtectedHeader * gmap string JsValue).

Local Ltac case_violation H :=
  unfold violation in H;
  repeat match type of H with
         | context [match ?x with _ => _ end] => destruct x eqn:?
         end;
  try discriminate H.

(** What each step has established when it finds nothing wrong. *)
Lemma pass_algorithm this header payload o now :
  violation this header payload o now SignatureAlgorithm = None ->
  header_alg header = alg this.
Proof.
  intros H. case_violation H.
  eapply bool_decide_eq_true_1; eassumption.
Qed.

Lemma pass_issuer this header payload o now :
  violation this header payload o now Issuer = None ->
  get payload "iss" = JString (issuer this).
Proof.
  intros H. case_violation H. f_equal.
  eapply bool_decide_eq_true_1; eassumption.
Qed.

Lemma pass_subject this header payload o now :
  violation this header payload o now Subject = None ->
  exists s, get payload "sub" = JString s /\ s <> "".
Proof.
  intros H. case_violation H. eexists. split; [reflexivity|].
  eapply bool_decide_eq_false_1; eassumption.
Qed.

Lemma pass_audience this header payload o now :
  violation this header payload o now Audience = None ->
  get payload "aud" = JString (audience this)
  \/ exists items, get payload "aud" = JArray items
                   /\ includes items (audience this) = true.
Proof.
  intros H. case_violation H.
  - left. f_equal. eapply bool_decide_eq_true_1; eassumption.
  - right. eexists. split; [reflexivity | assumption].
Qed.

Lemma pass_expiration this header payload o now :
  violation this header payload o now Expiration = None ->
  exists exp, get payload "exp" = JNumber exp /\ exp <> 0
              /\ now <= exp + clockTol this.
Proof.
  unfold violation.
  destruct (get payload "exp") as [| | |n| | |]; try discriminate.
  destruct (Z.eqb_spec n 0); [discriminate|].
  destruct (Z.gtb_spec now (n + clockTol this)); [discriminate|].
  intros _. exists n. auto.
Qed.

Lemma pass_issued_at this header payload o now :
  violation this header payload o now IssuedAt = None ->
  exists iat, get payload "iat" = JNumber iat /\ iat <> 0.
Proof.
  intros H. case_violation H. eexists. split; [reflexivity|].
  apply Z.eqb_neq; assumption.
Qed.

(** An accepted token is a verified one on which every step passes, and
    conversely. *)
Lemma validate_accepts_inv this idToken o dateNow payload :
  validate jwtVerify this idToken o dateNow = Normal payload ->
  exists header,
    jwtVerify idToken (keyFor this)
      {| vo_issuer := issuer this; vo_audience := audience this |}
    = Normal (header, payload)
    /\ forall c, violation this header payload o (dateNow `div` 1000) c = None.
Proof.
  rewrite validate_eq. unfold validate_pipeline.
  destruct (jwtVerify _ _ _) as [[header payload']|e]; [|discriminate].
  pose proof (first_violation_inv this header payload' o
                (dateNow `div` 1000) pipeline) as Hinv.
  destruct (first_violation _ _ _ _ _ pipeline); [discriminate|].
  intros [= <-]. exists header. split; [reflexivity|].
  intros c. rewrite Forall_forall in Hinv. apply Hinv.
  destruct c; unfold pipeline; repeat constructor.
Qed.

Lemma validate_accepts this idToken o dateNow header payload :
  jwtVerify idToken (keyFor this)
    {| vo_issuer := issuer this; vo_audience := audience this |}
  = Normal (header, payload) ->
  (forall c, violation this header payload o (dateNow `div` 1000) c = None) ->
  validate jwtVerify this idToken o dateNow = Normal payload.
Proof.
  intros Hv Hall. rewrite (validate_verified _ _ _ _ _ _ _ Hv).
  rewrite first_violation_none; [reflexivity|].
  apply Forall_forall. intros c _. apply Hall.
Qed.

(** X1.  Whatever [validate] returns is the payload of a token that
    [jwtVerify] accepted, signed with the configured algorithm, issued
    by the configured issuer, with a non-empty subject, with the client
    id as its audience or among its audiences, with a non-zero issue
    time and not expired beyond the clock tolerance. *)
Theorem validate_sound this idToken o dateNow payload :
  validate jwtVerify this idToken o dateNow = Normal payload ->
  exists header,
    jwtVerify idToken (keyFor this)
      {| vo_issuer := issuer this; vo_audience := audience this |}
    = Normal (header, payload)
    /\ header_alg header = alg this
    /\ get payload "iss" = JString (issuer this)
    /\ (exists s, get payload "sub" = JString s /\ s <> "")
    /\ (get payload "aud" = JString (audience this)
        \/ exists items, get payload "aud" = JArray items
                         /\ In (JString (audience this)) items)
    /\ (exists exp, get payload "exp" = JNumber exp /\ exp <> 0
                    /\ dateNow `div` 1000 <= exp + clockTol this)
    /\ (exists iat, get payload "iat" = JNumber iat /\ iat <> 0).
Proof.
  intros Hok. apply validate_accepts_inv in Hok as (header & Hv & Hall).
  exists header. split; [exact Hv|].
  split; [eapply pass_algorithm, Hall|].
  split; [eapply pass_issuer, Hall|].
  split; [eapply pass_subject, Hall|].
  split; [|split; [eapply pass_expiration, Hall | eapply pass_issued_at, Hall]].
  destruct (pass_audience _ _ _ _ _ (Hall Audience))
    as [Haud | (items & Haud & Hin)]; [left; exact Haud|].
  right. exists items. split; [exact Haud|].
  unfold includes in Hin. apply existsb_exists in Hin as (v & Hv' & Heq).
  destruct v; try discriminate Heq. cbn in Heq.
  apply bool_decide_eq_true_1 in Heq. subst. exact Hv'.
Qed.

(** X2.  Whatever [validate] returns also meets every expectation that
    was supplied: the nonce and the organization are the expected ones,
    the authentication is no older than the maximal age plus the clock
    tolerance, and a token for several audiences names the client id as
    its authorized party. *)
Theorem validate_meets_expectations this idToken o dateNow payload :
  validate jwtVerify this idToken o dateNow = Normal payload ->
  (forall n, nonce o = Some n -> n <> "" ->
             get payload "nonce" = JString n)
  /\ (forall org, organization o = Some org -> org <> "" ->
                  get payload "org_id" = JString org)
  /\ (forall age, maxAge o = Some age -> age <> 0 ->
        exists t, get payload "auth_time" = JNumber t /\ t <> 0
                  /\ dateNow `div` 1000 <= t + age + clockTol this)
  /\ (forall items, get payload "aud" = JArray items ->
        (1 < length items)%nat ->
        get payload "azp" = JString (audience this)).
Proof.
  intros Hok. apply validate_accepts_inv in Hok as (header & Hv & Hall).
  repeat split.
  - intros n Hn Hne. pose proof (Hall Nonce) as H. unfold violation in H.
    rewrite Hn, bool_decide_eq_false_2 in H by exact Hne.
    destruct (get payload "nonce") as [| | | |s| |]; try discriminate H.
    destruct (bool_decide (s = "")); [discriminate H|].
    destruct (bool_decide (s = n)) eqn:E; [|discriminate H].
    apply bool_decide_eq_true_1 in E. subst. reflexivity.
  - intros org Ho Hne. pose proof (Hall Organization) as H.
    unfold violation in H.
    rewrite Ho, bool_decide_eq_false_2 in H by exact Hne.
    destruct (get payload "org_id") as [| | | |s| |]; try discriminate H.
    destruct (bool_decide (s = "")); [discriminate H|].
    destruct (bool_decide (s = org)) eqn:E; [|discriminate H].
    apply bool_decide_eq_true_1 in E. subst. reflexivity.
  - intros age Ha Hne. pose proof (Hall AuthenticationTime) as H.
    unfold violation in H. rewrite Ha in H.
    destruct (Z.eqb_spec age 0); [contradiction|].
    destruct (get payload "auth_time") as [| | |t| | |]; try discriminate H.
    destruct (Z.eqb_spec t 0); [discriminate H|].
    destruct (Z.gtb_spec (dateNow `div` 1000) (t + age + clockTol this));
      [discriminate H|].
    exists t. auto.
  - intros items Haud Hlen. pose proof (Hall AuthorizedParty) as H.
    unfold violation in H. rewrite Haud in H.
    destruct items as [|x [|y rest]]; cbn in Hlen; try lia.
    destruct (get payload "azp") as [| | | |s| |]; try discriminate H.
    destruct (bool_decide (s = "")); [discriminate H|].
    destruct (bool_decide (s = audience this)) eqn:E; [|discriminate H].
    apply bool_decide_eq_true_1 in E. subst. reflexivity.
Qed.

(** A step that passes at one time passes at every earlier time. *)
Lemma violation_earlier this header payload o now now' c :
  now' <= now ->
  violation this header payload o now c = None ->
  violation this header payload o now' c = None.
Proof.
  intros Hle. destruct c; try exact id; unfold violation.
  - destruct (get payload "exp") as [| | |n| | |]; try exact id.
    destruct (n =? 0); [exact id|].
    destruct (Z.gtb_spec now (n + clockTol this)); [discriminate|].
    destruct (Z.gtb_spec now' (n + clockTol this)); [lia|reflexivity].
  - destruct (maxAge o) as [age|]; [|exact id].
    destruct (age =? 0); [exact id|].
    destruct (get payload "auth_time") as [| | |n| | |]; try exact id.
    destruct (n =? 0); [exact id|].
    destruct (Z.gtb_spec now (n + age + clockTol this)); [discriminate|].
    destruct (Z.gtb_spec now' (n + age + clockTol this)); [lia|reflexivity].
Qed.

(** X5.  With a maximal age other than zero, on a token whose other
    checks pass and whose [auth_time] claim is a number other than zero,
    [validate] fails exactly when the current time exceeds
    [auth_time + maxAge + clockTolerance], and then with the
    authentication-time error. *)
Theorem authentication_time_boundary
    this idToken o dateNow header payload (age authTime : Z) :
  jwtVerify idToken (keyFor this)
    {| vo_issuer := issuer this; vo_audience := audience this |}
  = Normal (header, payload) ->
  (forall c, c <> AuthenticationTime ->
             violation this header payload o (dateNow `div` 1000) c = None) ->
  maxAge o = Some age -> age <> 0 ->
  get payload "auth_time" = JNumber authTime -> authTime <> 0 ->
  let now := dateNow `div` 1000 in
  let validUntil := authTime + age + clockTol this in
  (now <= validUntil ->
   validate jwtVerify this idToken o dateNow = Normal payload)
  /\ (now > validUntil ->
      validate jwtVerify this idToken o dateNow
      = Throw (ValidatorError (AuthTimeExpired now validUntil))).
Proof.
  intros Hv Hothers Hage Hne Hauth Hnz now validUntil.
  rewrite (validate_verified _ _ _ _ _ _ _ Hv). fold now.
  assert (Hbefore :
    Forall (fun c => violation this header payload o now c = None)
      [ SignatureAlgorithm; Issuer; Subject; Audience; Organization;
        Expiration; IssuedAt; Nonce; AuthorizedParty ]).
  { repeat constructor; apply Hothers; discriminate. }
  assert (Hstep :
    violation this header payload o now AuthenticationTime
    = if now >? validUntil
      then Some (AuthTimeExpired now validUntil) else None).
  { unfold violation. rewrite Hage, Hauth.
    destruct (Z.eqb_spec age 0); [contradiction|].
    destruct (Z.eqb_spec authTime 0); [contradiction|]. reflexivity. }
  change pipeline with
    ([ SignatureAlgorithm; Issuer; Subject; Audience; Organization;
       Expiration; IssuedAt; Nonce; AuthorizedParty ]
       ++ [AuthenticationTime])%list.
  rewrite first_violation_app by assumption.
  rewrite first_violation_unfold, Hstep.
  split; intros Hcmp;
    destruct (Z.gtb_spec now validUntil); try lia; reflexivity.
Qed.

(** X6.  Unless the configured algorithm is [HS256], the client secret
    plays no part: the key handed to [jwtVerify] is the remote key set
    of the domain, and [validate] is the same whatever the secret. *)
Theorem secret_only_for_HS256 (opts : Options) (otherSecret : option string)
    idToken o dateNow :
  idTokenSigningAlg opts <> Some "HS256" ->
  keyFor (constructor opts) = RemoteJWKSet ("https://" +:+ domain opts)
  /\ validate jwtVerify (constructor opts) idToken o dateNow
     = validate jwtVerify
         (constructor {| domain := domain opts;
                         clientId := clientId opts;
                         clientSecret := otherSecret;
                         idTokenSigningAlg := idTokenSigningAlg opts;
                         clockTolerance := clockTolerance opts |})
         idToken o dateNow.
Proof.
  intros Halg.
  assert (Hne : default "RS256" (idTokenSigningAlg opts) <> "HS256").
  { destruct (idTokenSigningAlg opts) as [a|]; cbn; congruence. }
  assert (Hkey : forall secret',
    keyFor (constructor {| domain := domain opts;
                           clientId := clientId opts;
                           clientSecret := secret';
                           idTokenSigningAlg := idTokenSigningAlg opts;
                           clockTolerance := clockTolerance opts |})
    = RemoteJWKSet ("https://" +:+ domain opts)).
  { intros secret'. unfold keyFor, constructor. cbn.
    rewrite bool_decide_eq_false_2 by exact Hne. reflexivity. }
  split.
  - destruct opts. apply Hkey.
  - rewrite !validate_eq. unfold validate_pipeline.
    rewrite (Hkey otherSecret).
    replace (keyFor (constructor opts))
      with (RemoteJWKSet ("https://" +:+ domain opts))
      by (destruct opts; symmetry; apply Hkey).
    reflexivity.
Qed.

End ValidatorCoverage.

Section ValidatorIndependence.
Import JS IdToken.

Lemma get_insert_ne (payload : gmap string JsValue) key key' v :
  key <> key' -> get (<[ key := v ]> payload) key' = get payload key'.
Proof. intros H. unfold get. rewrite lookup_insert_ne by exact H. reflexivity. Qed.

Lemma get_insert_eq (payload : gmap string JsValue) key v :
  get (<[ key := v ]> payload) key = v.
Proof. unfold get. rewrite lookup_insert_eq. reflexivity. Qed.

Lemma first_violation_ext this header payload payload' o now cs :
  (forall c, violation this header payload' o now c
             = violation this header payload o now c) ->
  first_violation this header payload' o now cs
  = first_violation this header payload o now cs.
Proof.
  intros H. induction cs as [|c cs IH]; [reflexivity|].
  cbn. rewrite H, IH. reflexivity.
Qed.

(** Two verified tokens on which every step finds the same thing are
    accepted together or refused with the same error. *)
Lemma validate_same_outcome this header payload payload' o idToken dateNow :
  (forall c, violation this header payload' o (dateNow `div` 1000) c
             = violation this header payload o (dateNow `div` 1000) c) ->
  match validate (verified header payload) this idToken o dateNow with
  | Normal _ =>
      validate (verified header payload') this idToken o dateNow
      = Normal payload'
  | Throw e =>
      validate (verified header payload') this idToken o dateNow = Throw e
  end.
Proof.
  intros H.
  rewrite (validate_verified (verified header payload) _ _ _ _ header payload
             eq_refl).
  rewrite (validate_verified (verified header payload') _ _ _ _ header payload'
             eq_refl).
  rewrite (first_violation_ext _ _ _ _ _ _ _ H).
  destruct (first_violation _ _ payload _ _ _); reflexivity.
Qed.

(** X8.  The value of [iat] is not looked at beyond its being a number
    other than zero: a verified token is accepted or refused alike,
    and with the same error, whatever non-zero time it says it was
    issued at, a time in the future included. *)
Theorem issued_at_not_range_checked
    this header payload o idToken dateNow (issued issued' : Z) :
  issued <> 0 -> issued' <> 0 ->
  match validate (verified header (<[ "iat" := JNumber issued ]> payload))
          this idToken o dateNow with
  | Normal _ =>
      validate (verified header (<[ "iat" := JNumber issued' ]> payload))
        this idToken o dateNow
      = Normal (<[ "iat" := JNumber issued' ]> payload)
  | Throw e =>
      validate (verified header (<[ "iat" := JNumber issued' ]> payload))
        this idToken o dateNow
      = Throw e
  end.
Proof.
  intros Hn Hn'. apply validate_same_outcome. intros c.
  destruct c; unfold violation;
    rewrite ?get_insert_ne by discriminate; try reflexivity.
  rewrite !get_insert_eq.
  destruct (Z.eqb_spec issued 0), (Z.eqb_spec issued' 0);
    try contradiction; reflexivity.
Qed.

(** X9.  The message of an error tells the step that raised it: two
    errors of different steps never have the same message, whatever
    values are interpolated in them. *)
Theorem message_tells_step (e1 e2 : IdTokenValidatorError) :
  message e1 = message e2 -> check_of e1 = check_of e2.
Proof.
  intros H. apply (f_equal (String.substring 0 8)) in H.
  destruct e1, e2; try reflexivity; vm_compute in H; discriminate H.
Qed.

End ValidatorIndependence.

(** * The validator behind the claims checks of jose *)

Section JoseChecks.
Import JS IdToken.

Implicit Types
  (verifySignature :
     string -> KeyInput ->
     Completion Thrown (ProtectedHeader * gmap string JsValue))
  (this : IDTokenValidator) (payload : gmap string JsValue).

Local Abbreviation optionsOf this :=
  ({| vo_issuer := issuer this; vo_audience := audience this |}).

(** [validate] with [jose] in front: the signature, the claims checks
    of [jose], then the steps of the pipeline. *)
Lemma validate_jose verifySignature this idToken o joseNow dateNow :
  validate (jwtVerifyAt verifySignature joseNow) this idToken o dateNow
  = match verifySignature idToken (keyFor this) with
    | Throw e => Throw e
    | Normal (header, payload) =>
        match joseClaims (optionsOf this) joseNow payload with
        | Throw e => Throw e
        | Normal _ =>
            outcome_of
              (first_violation this header payload o (dateNow `div` 1000)
                 pipeline)
              (Normal payload)
        end
    end.
Proof.
  rewrite validate_eq. unfold validate_pipeline, jwtVerifyAt.
  destruct (verifySignature idToken (keyFor this)) as [[header payload]|e];
    [|reflexivity].
  cbn [mbind Completion_bind].
  destruct (joseClaims _ joseNow payload) as [[]|e]; reflexivity.
Qed.

(** The claims checks one after the other. *)
Lemma joseClaims_steps (options : JWTVerifyOptions) now payload :
  joseClaims options now payload
  = if truthy (JString (vo_issuer options))
       && negb (eq_string (get payload "iss") (vo_issuer options))
    then Throw (JoseError ERR_JWT_CLAIM_VALIDATION_FAILED)
    else if truthy (JString (vo_audience options))
            && negb (checkAudiencePresence (get payload "aud")
                       (vo_audience options))
    then Throw (JoseError ERR_JWT_CLAIM_VALIDATION_FAILED)
    else if negb (isUndefined (get payload "iat"))
            && negb (is_number (get payload "iat"))
    then Throw (JoseError ERR_JWT_CLAIM_VALIDATION_FAILED)
    else if match get payload "nbf" with
            | JUndefined => false
            | JNumber nbf => nbf >? now
            | _ => true
            end
    then Throw (JoseError ERR_JWT_CLAIM_VALIDATION_FAILED)
    else match get payload "exp" with
         | JUndefined => Normal tt
         | JNumber exp =>
             if exp <=? now then Throw (JoseError ERR_JWT_EXPIRED)
             else Normal tt
         | _ => Throw (JoseError ERR_JWT_CLAIM_VALIDATION_FAILED)
         end.
Proof.
  unfold joseClaims, throwIf.
  destruct (truthy _ && negb (eq_string _ _)); [reflexivity|].
  destruct (truthy _ && negb (checkAudiencePresence _ _)); [reflexivity|].
  destruct (negb _ && negb _); [reflexivity|].
  cbn [mbind Completion_bind].
  destruct (get payload "nbf") as [| | |nbf| | |]; try reflexivity.
  destruct (nbf >? now); reflexivity.
Qed.

(** What a payload that [jose] lets through has. *)
Lemma joseClaims_Normal_inv (options : JWTVerifyOptions) now payload :
  joseClaims options now payload = Normal tt ->
  (vo_issuer options <> "" ->
   get payload "iss" = JString (vo_issuer options))
  /\ (vo_audience options <> "" ->
      checkAudiencePresence (get payload "aud") (vo_audience options) = true)
  /\ (forall nbf, get payload "nbf" = JNumber nbf -> nbf <= now)
  /\ (forall exp, get payload "exp" = JNumber exp -> now < exp).
Proof.
  rewrite joseClaims_steps. intros H.
  destruct (truthy (JString (vo_issuer options))
            && negb (eq_string (get payload "iss") (vo_issuer options)))
    eqn:Eiss; [discriminate H|].
  destruct (truthy (JString (vo_audience options))
            && negb (checkAudiencePresence (get payload "aud")
                       (vo_audience options)))
    eqn:Eaud; [discriminate H|].
  destruct (negb (isUndefined (get payload "iat"))
            && negb (is_number (get payload "iat")));
    [discriminate H|].
  split; [|split; [|split]].
  - intros Hne. cbn [truthy] in Eiss.
    rewrite bool_decide_eq_false_2 in Eiss by exact Hne.
    cbn [negb andb] in Eiss. apply negb_false_iff in Eiss.
    destruct (get payload "iss") as [| | | |s| |]; try discriminate Eiss.
    cbn in Eiss. apply bool_decide_eq_true_1 in Eiss. congruence.
  - intros Hne. cbn [truthy] in Eaud.
    rewrite bool_decide_eq_false_2 in Eaud by exact Hne.
    cbn [negb andb] in Eaud. apply negb_false_iff in Eaud. exact Eaud.
  - intros nbf Hnbf. rewrite Hnbf in H.
    destruct (Z.gtb_spec nbf now); [discriminate H | lia].
  - intros exp Hexp.
    destruct (match get payload "nbf" with
              | JUndefined => false
              | JNumber nbf => nbf >? now
              | _ => true
              end); [discriminate H|].
    rewrite Hexp in H.
    destruct (Z.leb_spec exp now); [discriminate H | lia].
Qed.

(** The claims checks throw errors of [jose] only. *)
Lemma joseClaims_Throw (options : JWTVerifyOptions) now payload e :
  joseClaims options now payload = Throw e -> exists code, e = JoseError code.
Proof.
  rewrite joseClaims_steps.
  repeat match goal with
         | |- context [if ?c then _ else _] => destruct c
         | |- context [match get payload "exp" with _ => _ end] =>
             destruct (get payload "exp")
         end;
    intros [= <-] || discriminate; eexists; reflexivity.
Qed.

(** The claims checks read five claims. *)
Lemma joseClaims_ext (options : JWTVerifyOptions) now payload payload' :
  (forall key, In key joseClaimsRead -> get payload' key = get payload key) ->
  joseClaims options now payload' = joseClaims options now payload.
Proof.
  intros Hsame. unfold joseClaims.
  rewrite !Hsame by (cbn; tauto). reflexivity.
Qed.

(** The only claims check that an earlier reading of the clock can make
    fail is that of [nbf]. *)
Lemma joseClaims_earlier (options : JWTVerifyOptions) now now' payload :
  joseClaims options now payload = Normal tt ->
  now' <= now ->
  (forall nbf, get payload "nbf" = JNumber nbf -> nbf <= now') ->
  joseClaims options now' payload = Normal tt.
Proof.
  rewrite !joseClaims_steps. intros H Hle Hnbf.
  destruct (truthy _ && negb (eq_string _ _)); [discriminate H|].
  destruct (truthy _ && negb (checkAudiencePresence _ _)); [discriminate H|].
  destruct (negb _ && negb _); [discriminate H|].
  destruct (get payload "nbf") as [| | |nbf| | |] eqn:Enbf;
    try discriminate H.
  - destruct (get payload "exp") as [| | |exp| | |]; try discriminate H;
      [reflexivity|].
    destruct (Z.leb_spec exp now); [discriminate H|].
    destruct (Z.leb_spec exp now'); [lia | reflexivity].
  - specialize (Hnbf nbf eq_refl).
    destruct (Z.gtb_spec nbf now); [discriminate H|].
    destruct (Z.gtb_spec nbf now'); [lia|].
    destruct (get payload "exp") as [| | |exp| | |]; try discriminate H;
      [reflexivity|].
    destruct (Z.leb_spec exp now); [discriminate H|].
    destruct (Z.leb_spec exp now'); [lia | reflexivity].
Qed.

Lemma get_delete_ne payload key key' :
  key <> key' -> get (delete key payload) key' = get payload key'.
Proof.
  intros H. unfold get. rewrite lookup_delete_ne by exact H. reflexivity.
Qed.

Lemma get_delete_eq payload key : get (delete key payload) key = JUndefined.
Proof. unfold get. rewrite lookup_delete_eq. reflexivity. Qed.

(** From the second that [exp] names on, the claims checks fail; with
    the expiry error when nothing else is wrong. *)
Lemma joseClaims_expired (options : JWTVerifyOptions) now payload exp :
  get payload "exp" = JNumber exp ->
  exp <= now ->
  (exists code, joseClaims options now payload = Throw (JoseError code))
  /\ (joseClaims options now (delete "exp" payload) = Normal tt ->
      joseClaims options now payload = Throw (JoseError ERR_JWT_EXPIRED)).
Proof.
  intros Hexp Hle. rewrite !joseClaims_steps.
  rewrite !get_delete_ne by discriminate. rewrite get_delete_eq, Hexp.
  destruct (Z.leb_spec exp now); [|lia].
  destruct (truthy _ && negb (eq_string _ _));
    [split; [eexists; reflexivity | discriminate]|].
  destruct (truthy _ && negb (checkAudiencePresence _ _));
    [split; [eexists; reflexivity | discriminate]|].
  destruct (negb _ && negb _);
    [split; [eexists; reflexivity | discriminate]|].
  destruct (match get payload "nbf" with
            | JUndefined => false
            | JNumber nbf => nbf >? now
            | _ => true
            end);
    [split; [eexists; reflexivity | discriminate]|].
  split; [eexists; reflexivity | reflexivity].
Qed.

(** The step that raised an error of the pipeline. *)
Lemma first_violation_Some this header payload o now cs e :
  first_violation this header payload o now cs = Some e ->
  exists c, violation this header payload o now c = Some e.
Proof.
  intros H.
  pose proof (first_violation_inv this header payload o now cs) as Hinv.
  rewrite H in Hinv. destruct Hinv as (_ & c & _ & _ & _ & Hc).
  exists c. exact Hc.
Qed.

(** C4.  [validate] hands [jwtVerify] no clock tolerance, and
    [jwtVerify] refuses a token from the second that its [exp] names
    on.  At a clock reading of [exp + clockTolerance], as at any other
    from [exp] on, the token is therefore refused, with an error of
    [jose], the expiry error when its other claims are in order; the
    expiration test of [validate] itself, which adds the tolerance,
    would have let it pass. *)
Theorem clock_tolerance_not_given_to_jose
    verifySignature this idToken o joseNow dateNow header payload (exp : Z) :
  verifySignature idToken (keyFor this) = Normal (header, payload) ->
  get payload "exp" = JNumber exp ->
  exp <= joseNow ->
  (exists code,
      validate (jwtVerifyAt verifySignature joseNow) this idToken o dateNow
      = Throw (JoseError code))
  /\ (joseClaims (optionsOf this) joseNow (delete "exp" payload) = Normal tt ->
      validate (jwtVerifyAt verifySignature joseNow) this idToken o dateNow
      = Throw (JoseError ERR_JWT_EXPIRED))
  /\ (exp <> 0 -> dateNow `div` 1000 <= exp + clockTol this ->
      violation this header payload o (dateNow `div` 1000) Expiration
      = None).
Proof.
  intros Hsig Hexp Hle. rewrite validate_jose, Hsig.
  destruct (joseClaims_expired (optionsOf this) joseNow payload exp Hexp Hle)
    as [(code & Hcode) Hexpired].
  split; [|split].
  - exists code. rewrite Hcode. reflexivity.
  - intros Hothers. rewrite (Hexpired Hothers). reflexivity.
  - intros Hnz Hnow. unfold violation. rewrite Hexp.
    destruct (Z.eqb_spec exp 0); [contradiction|].
    destruct (Z.gtb_spec (dateNow `div` 1000) (exp + clockTol this));
      [lia | reflexivity].
Qed.

(** C9 (amended).  An [iat] claim of zero fails the presence test of
    the issued-at step as an absent one does, and a token that reaches
    that step with it is refused with the [iat] must-be-a-number-present
    error.  For [exp] only the absent claim gets that far: a token
    without [exp] that reaches the expiration step is refused with the
    [exp] must-be-a-number-present error, but a token whose [exp] is
    zero is refused before, by [jwtVerify], as expired. *)
Theorem zero_time_claim_rejected
    verifySignature this idToken o joseNow dateNow header payload :
  verifySignature idToken (keyFor this) = Normal (header, payload) ->
  0 <= joseNow ->
  let result :=
    validate (jwtVerifyAt verifySignature joseNow) this idToken o dateNow in
  let violates := violation this header payload o (dateNow `div` 1000) in
  let accepted := joseClaims (optionsOf this) joseNow payload = Normal tt in
  (get payload "iat" = JNumber 0 \/ get payload "iat" = JUndefined ->
   violates IssuedAt = Some IatNotPresent
   /\ (accepted ->
       Forall (fun c => violates c = None)
         [ SignatureAlgorithm; Issuer; Subject; Audience; Organization;
           Expiration ] ->
       result = Throw (ValidatorError IatNotPresent)))
  /\ (get payload "exp" = JUndefined ->
      violates Expiration = Some ExpNotPresent
      /\ (accepted ->
          Forall (fun c => violates c = None)
            [ SignatureAlgorithm; Issuer; Subject; Audience; Organization ] ->
          result = Throw (ValidatorError ExpNotPresent)))
  /\ (get payload "exp" = JNumber 0 ->
      (exists code, result = Throw (JoseError code))
      /\ (joseClaims (optionsOf this) joseNow (delete "exp" payload)
          = Normal tt ->
          result = Throw (JoseError ERR_JWT_EXPIRED))).
Proof.
  intros Hsig Hnow result violates accepted.
  unfold result. rewrite validate_jose, Hsig.
  split; [|split].
  - intros Hiat.
    assert (Hstep : violates IssuedAt = Some IatNotPresent).
    { unfold violates, violation. destruct Hiat as [-> | ->]; reflexivity. }
    split; [exact Hstep|]. intros Hacc Hbefore.
    unfold accepted in Hacc. rewrite Hacc.
    change pipeline with
      ([ SignatureAlgorithm; Issuer; Subject; Audience; Organization;
         Expiration ]
         ++ IssuedAt :: [ Nonce; AuthorizedParty;
                          AuthenticationTime ])%list.
    rewrite (first_violation_at _ _ _ _ _ _ _ _ IatNotPresent Hbefore Hstep).
    reflexivity.
  - intros Hexp.
    assert (Hstep : violates Expiration = Some ExpNotPresent).
    { unfold violates, violation. rewrite Hexp. reflexivity. }
    split; [exact Hstep|]. intros Hacc Hbefore.
    unfold accepted in Hacc. rewrite Hacc.
    change pipeline with
      ([ SignatureAlgorithm; Issuer; Subject; Audience; Organization ]
         ++ Expiration :: [ IssuedAt; Nonce; AuthorizedParty;
                            AuthenticationTime ])%list.
    rewrite (first_violation_at _ _ _ _ _ _ _ _ ExpNotPresent Hbefore Hstep).
    reflexivity.
  - intros Hexp.
    destruct (joseClaims_expired (optionsOf this) joseNow payload 0 Hexp Hnow)
      as [(code & Hcode) Hexpired].
    split.
    + exists code. rewrite Hcode. reflexivity.
    + intros Hothers. rewrite (Hexpired Hothers). reflexivity.
Qed.

(** X3.  No check refuses a token for being used too early except the
    [nbf] check of [jwtVerify]: a token that is accepted at one reading
    of the clock is accepted at every earlier reading at which its
    [nbf], if it has one, has passed. *)
Theorem validate_accepts_earlier
    verifySignature this idToken o joseNow dateNow joseNow' dateNow' payload :
  validate (jwtVerifyAt verifySignature joseNow) this idToken o dateNow
  = Normal payload ->
  joseNow' <= joseNow -> dateNow' <= dateNow ->
  (forall nbf, get payload "nbf" = JNumber nbf -> nbf <= joseNow') ->
  validate (jwtVerifyAt verifySignature joseNow') this idToken o dateNow'
  = Normal payload.
Proof.
  intros Hok Hjose Hdate Hnbf. rewrite validate_jose in *.
  destruct (verifySignature idToken (keyFor this)) as [[header payload']|e];
    [|discriminate Hok].
  destruct (joseClaims (optionsOf this) joseNow payload') as [[]|e] eqn:Hacc;
    [|discriminate Hok].
  pose proof (first_violation_inv this header payload' o
                (dateNow `div` 1000) pipeline) as Hinv.
  destruct (first_violation _ _ _ _ _ pipeline); [discriminate Hok|].
  injection Hok as ->.
  rewrite (joseClaims_earlier _ _ _ _ Hacc Hjose Hnbf).
  rewrite first_violation_none; [reflexivity|].
  eapply Forall_impl; [exact Hinv|]. intros c Hc.
  apply (violation_earlier _ _ _ _ (dateNow `div` 1000)); [|exact Hc].
  apply Z.div_le_mono; lia.
Qed.

(** X4.  With a client id that is not empty, the issuer and the
    audience are settled by [jwtVerify]: a token whose [iss] is not the
    issuer, or whose [aud] is neither the client id nor an array with
    the client id in it, is refused there, with the claim-validation
    error of [jose]; the issuer and audience errors of [validate]
    itself are never raised. *)
Theorem issuer_and_audience_settled_by_jose
    verifySignature this idToken o joseNow dateNow header payload :
  verifySignature idToken (keyFor this) = Normal (header, payload) ->
  issuer this <> "" -> audience this <> "" ->
  let result :=
    validate (jwtVerifyAt verifySignature joseNow) this idToken o dateNow in
  (get payload "iss" <> JString (issuer this)
   \/ checkAudiencePresence (get payload "aud") (audience this) = false ->
   result = Throw (JoseError ERR_JWT_CLAIM_VALIDATION_FAILED))
  /\ (forall e,
        result = Throw (ValidatorError e) ->
        check_of e <> Issuer /\ check_of e <> Audience).
Proof.
  intros Hsig Hiss Haud result. unfold result.
  rewrite validate_jose, Hsig. split.
  - intros Hbad. rewrite joseClaims_steps. cbn [vo_issuer vo_audience truthy].
    rewrite !bool_decide_eq_false_2 by assumption. cbn [negb andb].
    destruct (eq_string (get payload "iss") (issuer this)) eqn:Eiss;
      [|reflexivity].
    cbn [negb].
    destruct (checkAudiencePresence (get payload "aud") (audience this))
      eqn:Eaud; [|reflexivity].
    exfalso. destruct Hbad as [Hbad | Hbad]; [|discriminate Hbad].
    apply Hbad. destruct (get payload "iss") as [| | | |s| |];
      try discriminate Eiss.
    cbn in Eiss. apply bool_decide_eq_true_1 in Eiss. congruence.
  - intros e He.
    destruct (joseClaims (optionsOf this) joseNow payload) as [[]|e']
      eqn:Hacc;
      [|apply joseClaims_Throw in Hacc as (code & ->); discriminate He].
    apply joseClaims_Normal_inv in Hacc as (Hi & Ha & _).
    specialize (Hi Hiss). specialize (Ha Haud).
    cbn [vo_issuer vo_audience] in Hi, Ha.
    assert (Hstep_iss :
      violation this header payload o (dateNow `div` 1000) Issuer = None).
    { unfold violation. rewrite Hi.
      rewrite bool_decide_eq_false_2 by exact Hiss.
      rewrite bool_decide_eq_true_2 by reflexivity. reflexivity. }
    assert (Hstep_aud :
      violation this header payload o (dateNow `div` 1000) Audience = None).
    { unfold violation.
      destruct (get payload "aud") as [| | | |s|items|];
        try discriminate Ha; cbn in Ha.
      - apply bool_decide_eq_true_1 in Ha. subst s.
        rewrite bool_decide_eq_false_2 by exact Haud.
        rewrite bool_decide_eq_true_2 by reflexivity. reflexivity.
      - rewrite Ha. reflexivity. }
    destruct (first_violation this header payload o (dateNow `div` 1000)
                pipeline) as [e''|] eqn:Hfirst; [|discriminate He].
    injection He as ->.
    apply first_violation_Some in Hfirst as (c & Hc).
    rewrite (violation_check_of _ _ _ _ _ _ _ Hc).
    split; intros ->; congruence.
Qed.

(** X7.  The claims of a token that are read at all are ten: the nine
    that [validate] reads and [nbf], which [jwtVerify] reads.  Adding
    or changing any other claim of a token whose signature verifies
    changes neither whether it is accepted nor the error it is refused
    with. *)
Theorem unexamined_claim_ignored
    this header payload o idToken joseNow dateNow key v :
  key ∉ "nbf" :: examinedClaims ->
  match validate (jwtVerifyAt (signed header payload) joseNow) this idToken
          o dateNow with
  | Normal _ =>
      validate (jwtVerifyAt (signed header (<[ key := v ]> payload)) joseNow)
        this idToken o dateNow
      = Normal (<[ key := v ]> payload)
  | Throw e =>
      validate (jwtVerifyAt (signed header (<[ key := v ]> payload)) joseNow)
        this idToken o dateNow
      = Throw e
  end.
Proof.
  intros Hkey. unfold examinedClaims in Hkey.
  rewrite !not_elem_of_cons in Hkey.
  destruct Hkey as (? & ? & ? & ? & ? & ? & ? & ? & ? & ? & _).
  rewrite !validate_jose. unfold signed.
  assert (Hjose :
    joseClaims (optionsOf this) joseNow (<[ key := v ]> payload)
    = joseClaims (optionsOf this) joseNow payload).
  { apply joseClaims_ext. intros k Hk. apply get_insert_ne.
    unfold joseClaimsRead in Hk. cbn in Hk.
    intuition congruence. }
  rewrite Hjose.
  destruct (joseClaims (optionsOf this) joseNow payload) as [[]|e];
    [|reflexivity].
  assert (Hsteps :
    first_violation this header (<[ key := v ]> payload) o
      (dateNow `div` 1000) pipeline
    = first_violation this header payload o (dateNow `div` 1000) pipeline).
  { apply first_violation_ext. intros c.
    destruct c; unfold violation;
      rewrite ?get_insert_ne by assumption; reflexivity. }
  rewrite Hsteps.
  destruct (first_violation this header payload o _ pipeline); reflexivity.
Qed.

End JoseChecks.

Section JoseExamples.
Import JS IdToken.

Local Ltac run := vm_compute; first [reflexivity | discriminate].

(** A token that is not valid yet is refused by [jwtVerify]. *)
Example not_yet_valid :
  validateAt RS256 (<[ "nbf" := JNumber 1699999500 ]> samplePayload)
    sampleValidator noExpectation 1699999000
  = Throw (JoseError ERR_JWT_CLAIM_VALIDATION_FAILED).
Proof. run. Qed.

(** The sample token, [exp] 1700000000 and a tolerance of 60 seconds,
    at 1700000060: refused as expired, though the expiration step of
    [validate] finds nothing wrong. *)
Lemma clock_tolerance_witness :
  validateAt RS256 samplePayload sampleValidator noExpectation 1700000060
  = Throw (JoseError ERR_JWT_EXPIRED)
  /\ violation sampleValidator RS256 samplePayload noExpectation
       (1700000060000 `div` 1000) Expiration
     = None.
Proof.
  destruct (clock_tolerance_not_given_to_jose (signed RS256 samplePayload)
              sampleValidator "id-token" noExpectation 1700000060
              1700000060000 RS256 samplePayload 1700000000)
    as (_ & Hexpired & Hown); [reflexivity | run | lia |].
  split.
  - apply Hexpired. run.
  - apply Hown; [discriminate | run].
Defined.

(** The sample token with [iat = 0], before it expires. *)
Lemma zero_time_claim_witness :
  validateAt RS256 (<[ "iat" := JNumber 0 ]> samplePayload) sampleValidator
    noExpectation 1699999000
  = Throw (ValidatorError IatNotPresent).
Proof.
  destruct (zero_time_claim_rejected
              (signed RS256 (<[ "iat" := JNumber 0 ]> samplePayload))
              sampleValidator "id-token" noExpectation 1699999000
              1699999000000 RS256 (<[ "iat" := JNumber 0 ]> samplePayload))
    as ((_ & Hiat) & _); [reflexivity | lia | left; run |].
  apply Hiat; [run | repeat constructor; run].
Defined.

(** C9 as stated fails for [exp]: the sample token with [exp = 0] is
    refused by [jwtVerify] as expired, not with the must-be-a-number-
    present error, which the same token without [exp] is refused
    with. *)
Lemma zero_time_claim_counterexample :
  get epochPayload "exp" = JNumber 0
  /\ validateAt RS256 epochPayload sampleValidator noExpectation 1699999000
     = Throw (JoseError ERR_JWT_EXPIRED)
  /\ JoseError ERR_JWT_EXPIRED <> ValidatorError ExpNotPresent
  /\ validateAt RS256 undatedPayload sampleValidator noExpectation 1699999000
     = Throw (ValidatorError ExpNotPresent).
Proof. repeat split; run. Qed.

(** The sample token, accepted a second before it expires, a day
    before. *)
Lemma validate_accepts_earlier_witness :
  validate (jwtVerifyAt (signed RS256 samplePayload) 1699913599)
    sampleValidator "id-token" noExpectation 1699913599000
  = Normal samplePayload.
Proof.
  apply (validate_accepts_earlier (signed RS256 samplePayload)
           sampleValidator "id-token" noExpectation 1699999999
           1699999999000 1699913599 1699913599000 samplePayload);
    [run | lia | lia |].
  intros nbf Hnbf. vm_compute in Hnbf. discriminate Hnbf.
Defined.

(** A token for [client-b] and [client-c], presented to [client-a]. *)
Lemma issuer_and_audience_witness :
  validateAt RS256 otherClientsPayload sampleValidator noExpectation
    1699999000
  = Throw (JoseError ERR_JWT_CLAIM_VALIDATION_FAILED).
Proof.
  destruct (issuer_and_audience_settled_by_jose
              (signed RS256 otherClientsPayload) sampleValidator "id-token"
              noExpectation 1699999000 (1699999000 * 1000) RS256
              otherClientsPayload)
    as (Hrefused & _); [reflexivity | discriminate | discriminate |].
  apply Hrefused. right. run.
Defined.

(** A [jti] does not keep the sample token out. *)
Lemma unexamined_claim_ignored_witness :
  validate
    (jwtVerifyAt (signed RS256 (<[ "jti" := JString "7f3a" ]> samplePayload))
       1699999000)
    sampleValidator "id-token" noExpectation 1699999000000
  = Normal (<[ "jti" := JString "7f3a" ]> samplePayload).
Proof.
  apply (unexamined_claim_ignored sampleValidator RS256 samplePayload
           noExpectation "id-token" 1699999000 1699999000000 "jti"
           (JString "7f3a")).
  unfold examinedClaims. intros H.
  repeat (apply elem_of_cons in H as [H|H]; [discriminate H|]).
  apply elem_of_nil in H. exact H.
Defined.

End JoseExamples.

Section ValidatorCoverageExamples.
Import JS IdToken.

Local Ltac run := vm_compute; first [reflexivity | discriminate].

(** The sample token with an authentication time. *)
Lemma others_pass_authenticated now c :
  c <> AuthenticationTime ->
  now <= 1700000060 ->
  violation sampleValidator RS256
    (<[ "auth_time" := JNumber 1699990000 ]> samplePayload)
    {| nonce := None; maxAge := Some 3600; organization := None |} now c
  = None.
Proof.
  intros Hc Hnow. destruct c; try contradiction; try reflexivity.
  unfold violation.
  change (get (<[ "auth_time" := JNumber 1699990000 ]> samplePayload) "exp")
    with (JNumber 1700000000).
  change (1700000000 =? 0) with false. cbv iota.
  change (clockTol sampleValidator) with 60.
  destruct (Z.gtb_spec now (1700000000 + 60)); [lia | reflexivity].
Qed.

(** The sample token is accepted, so it has what X1 says. *)
Lemma validate_sound_witness :
  exists header,
    verified RS256 samplePayload "id-token" (keyFor sampleValidator)
      {| vo_issuer := issuer sampleValidator;
         vo_audience := audience sampleValidator |}
    = Normal (header, samplePayload)
    /\ header_alg header = alg sampleValidator
    /\ get samplePayload "iss" = JString (issuer sampleValidator)
    /\ (exists s, get samplePayload "sub" = JString s /\ s <> "")
    /\ (get samplePayload "aud" = JString (audience sampleValidator)
        \/ exists items, get samplePayload "aud" = JArray items
                         /\ In (JString (audience sampleValidator)) items)
    /\ (exists exp, get samplePayload "exp" = JNumber exp /\ exp <> 0
                    /\ 1700000000000 `div` 1000
                       <= exp + clockTol sampleValidator)
    /\ (exists iat, get samplePayload "iat" = JNumber iat /\ iat <> 0).
Proof.
  apply (validate_sound (verified RS256 samplePayload) sampleValidator
           "id-token" noExpectation 1700000000000 samplePayload).
  run.
Defined.

(** A token for two clients that names its authorized party, validated
    with a nonce. *)
Lemma validate_meets_expectations_witness :
  let payload :=
    <[ "nonce" := JString "n-0S6" ]>
      (<[ "azp" := JString "client-a" ]> twoClientsPayload) in
  let o := {| nonce := Some "n-0S6"; maxAge := None; organization := None |} in
  (forall n, nonce o = Some n -> n <> "" ->
             get payload "nonce" = JString n)
  /\ (forall org, organization o = Some org -> org <> "" ->
                  get payload "org_id" = JString org)
  /\ (forall age, maxAge o = Some age -> age <> 0 ->
        exists t, get payload "auth_time" = JNumber t /\ t <> 0
                  /\ 1700000000000 `div` 1000
                     <= t + age + clockTol sampleValidator)
  /\ (forall items, get payload "aud" = JArray items ->
        (1 < length items)%nat ->
        get payload "azp" = JString (audience sampleValidator)).
Proof.
  intros payload o.
  apply (validate_meets_expectations (verified RS256 payload)
           sampleValidator "id-token" o 1700000000000 payload).
  run.
Defined.

(** An authentication of 1699990000 with a maximal age of an hour: good
    until 1699993660, refused a second later. *)
Lemma authentication_time_boundary_witness :
  let payload := <[ "auth_time" := JNumber 1699990000 ]> samplePayload in
  let o := {| nonce := None; maxAge := Some 3600; organization := None |} in
  validate (verified RS256 payload) sampleValidator "id-token" o
    1699993660000
  = Normal payload
  /\ validate (verified RS256 payload) sampleValidator "id-token" o
       1699993661000
     = Throw (ValidatorError (AuthTimeExpired 1699993661 1699993660)).
Proof.
  intros payload o. split.
  - apply (authentication_time_boundary (verified RS256 payload)
             sampleValidator "id-token" o 1699993660000 RS256 payload
             3600 1699990000);
      [reflexivity
      | intros c Hc; apply others_pass_authenticated; [exact Hc | run]
      | reflexivity | discriminate | run | discriminate | run].
  - apply (authentication_time_boundary (verified RS256 payload)
             sampleValidator "id-token" o 1699993661000 RS256 payload
             3600 1699990000);
      [reflexivity
      | intros c Hc; apply others_pass_authenticated; [exact Hc | run]
      | reflexivity | discriminate | run | discriminate | run].
Defined.

(** A validator for [RS256] that was given a secret all the same. *)
Lemma secret_only_for_HS256_witness :
  let opts := {| domain := "tenant.example.com"; clientId := "client-a";
                 clientSecret := Some "s3cret";
                 idTokenSigningAlg := Some "RS256";
                 clockTolerance := None |} in
  keyFor (constructor opts) = RemoteJWKSet "https://tenant.example.com"
  /\ validate (verified RS256 samplePayload) (constructor opts) "id-token"
       noExpectation 1700000000000
     = validate (verified RS256 samplePayload) sampleValidator "id-token"
         noExpectation 1700000000000.
Proof.
  intros opts.
  apply (secret_only_for_HS256 (verified RS256 samplePayload) opts None
           "id-token" noExpectation 1700000000000).
  discriminate.
Defined.

(** The sample token, said to be issued in the year 2100. *)
Lemma issued_at_not_range_checked_witness :
  validate (verified RS256 (<[ "iat" := JNumber 4102444800 ]> samplePayload))
    sampleValidator "id-token" noExpectation 1700000000000
  = Normal (<[ "iat" := JNumber 4102444800 ]> samplePayload).
Proof.
  apply (issued_at_not_range_checked sampleValidator RS256 samplePayload
           noExpectation "id-token" 1700000000000 1699990000 4102444800);
    discriminate.
Defined.

(** Two issuer mismatches have messages that begin alike. *)
Lemma message_tells_step_witness :
  check_of (IssMismatch "a" "b") = check_of (IssMismatch "a" "b").
Proof.
  apply (message_tells_step (IssMismatch "a" "b") (IssMismatch "a" "b")).
  reflexivity.
Defined.

End ValidatorCoverageExamples.

(** * Further properties of the request runtime *)

Section ExecutorCoverage.
Import JS Runtime.

Context {Sigma : Type}.
Variable JSON_stringify : InitValue -> InitValue.
Variable retryFn :
  @M Sigma Response -> gmap string JsValue -> @M Sigma Response.

Implicit Types (this : @BaseAPI Sigma) (w : @World Sigma).

(** A header of the request comes first, [undefined] included; a
    default of the configuration is used for the names the request does
    not have. *)
Lemma mergeHeaders_lookup (a b : option HTTPHeaders) (name : string) :
  mergeHeaders a b !! name
  = match default ∅ b !! name with
    | Some value => value
    | None =>
        match default ∅ a !! name with
        | Some (Some value) => Some value
        | _ => None
        end
    end.
Proof.
  unfold mergeHeaders. rewrite lookup_omap.
  destruct (default ∅ b !! name) as [value|] eqn:E.
  - rewrite (lookup_union_Some_l _ _ _ _ E). reflexivity.
  - rewrite lookup_union_r by exact E.
    destruct (default ∅ a !! name) as [[value|]|]; reflexivity.
Qed.

(** The run of [createFetchParams] for an override that is an object:
    the world is left as it is. *)
Lemma createFetchParams_object this context o w :
  createFetchParams JSON_stringify this context (Some (OverrideInit o)) w
  = createFetchParams JSON_stringify this context
      (Some (OverrideFunction (fun _ _ => ret o))) w.
Proof. reflexivity. Qed.

Lemma createFetchParams_run this context initOverrides w :
  let override :=
    match initOverrides with
    | Some (OverrideInit o) => Some o
    | None => Some ∅
    | Some (OverrideFunction _) => None
    end in
  forall o, override = Some o ->
  createFetchParams JSON_stringify this context initOverrides w
  = (Normal
       ((baseUrl (configuration this) +:+ path context)
        +:+ match query context with
            | None | Some [] => ""
            | Some q => "?" +:+ querystring q
            end,
        let initParams : gmap string InitValue :=
          {[ "method" := IData (JString (method context));
             "headers" :=
               IHeaders (mergeHeaders (headers (configuration this))
                           (ro_headers context));
             "body" := ro_body context;
             "agent" := agent (configuration this) ]} in
        let body := default IUndefined ((o ∪ initParams) !! "body") in
        <[ "body" := if passesThrough body then body
                     else JSON_stringify body ]> (o ∪ initParams)), w).
Proof.
  intros override o Ho. unfold createFetchParams, bind, ret.
  assert (Hurl :
    match query context with
    | Some q =>
        if negb (length (map fst q) =? 0)%nat
        then (baseUrl (configuration this) +:+ path context)
             +:+ "?" +:+ querystring q
        else baseUrl (configuration this) +:+ path context
    | None => baseUrl (configuration this) +:+ path context
    end
    = (baseUrl (configuration this) +:+ path context)
      +:+ match query context with
          | None | Some [] => ""
          | Some q => "?" +:+ querystring q
          end).
  { destruct (query context) as [[|kv q]|]; cbn [map length Nat.eqb negb];
      rewrite ?append_empty_r; reflexivity. }
  rewrite Hurl.
  destruct initOverrides as [[o'|f]|]; cbn in Ho; try discriminate Ho;
    injection Ho as <-; reflexivity.
Qed.

(** X10.  The headers that [createFetchParams] sends, when the override
    sets none: for each name, the header of the request description if
    it has that name, otherwise the default of the configuration.  A
    name that the request description holds with the value [undefined]
    is left out, even when the configuration has a default for it. *)
Theorem createFetchParams_headers this context initOverrides w :
  initOverrides = None
  \/ (exists o, initOverrides = Some (OverrideInit o)
                /\ o !! "headers" = None) ->
  exists url init merged,
    createFetchParams JSON_stringify this context initOverrides w
    = (Normal (url, init), w)
    /\ init !! "headers" = Some (IHeaders merged)
    /\ (forall name,
          merged !! name
          = match default ∅ (ro_headers context) !! name with
            | Some value => value
            | None =>
                match default ∅ (headers (configuration this)) !! name with
                | Some (Some value) => Some value
                | _ => None
                end
            end)
    /\ (forall name,
          default ∅ (ro_headers context) !! name = Some None ->
          merged !! name = None).
Proof.
  intros Hov.
  assert (Hrun : exists o,
    match initOverrides with
    | Some (OverrideInit o) => Some o
    | None => Some ∅
    | Some (OverrideFunction _) => None
    end = Some o /\ o !! "headers" = None).
  { destruct Hov as [-> | (o & -> & Ho)].
    - exists ∅. split; [reflexivity | apply lookup_empty].
    - exists o. split; [reflexivity | exact Ho]. }
  destruct Hrun as (o & Hsel & Ho).
  do 2 eexists.
  exists (mergeHeaders (headers (configuration this)) (ro_headers context)).
  split; [apply (createFetchParams_run _ _ _ _ o Hsel)|].
  split; [|split].
  - cbv zeta. rewrite lookup_insert_ne by discriminate.
    rewrite lookup_union_r by exact Ho.
    rewrite lookup_insert_ne by discriminate.
    apply lookup_insert_eq.
  - apply mergeHeaders_lookup.
  - intros name Hname. rewrite mergeHeaders_lookup, Hname. reflexivity.
Qed.

(** X11.  An override that is an object takes precedence, key by key,
    over what [createFetchParams] computes; the keys it does not have
    keep their computed value; the URL does not depend on it, and the
    world is left as it is.  The body is that of the override when it
    has one, otherwise that of the request description; form data, URL
    search parameters and blobs are passed on, anything else goes
    through [JSON.stringify]. *)
Theorem init_override_precedence this context o w :
  exists url init init0,
    createFetchParams JSON_stringify this context (Some (OverrideInit o)) w
    = (Normal (url, init), w)
    /\ createFetchParams JSON_stringify this context None w
       = (Normal (url, init0), w)
    /\ (forall key value,
          key <> "body" -> o !! key = Some value ->
          init !! key = Some value)
    /\ (forall key,
          key <> "body" -> o !! key = None -> init !! key = init0 !! key)
    /\ init !! "body"
       = Some (let body := default (ro_body context) (o !! "body") in
               if passesThrough body then body else JSON_stringify body).
Proof.
  do 3 eexists.
  split; [apply (createFetchParams_run this context (Some (OverrideInit o)) w o eq_refl)|].
  split; [apply (createFetchParams_run this context None w ∅ eq_refl)|].
  cbv zeta. split; [|split].
  - intros key value Hkey Ho. rewrite lookup_insert_ne by congruence.
    apply lookup_union_Some_l, Ho.
  - intros key Hkey Ho. rewrite !lookup_insert_ne by congruence.
    rewrite lookup_union_r by exact Ho.
    rewrite lookup_union_r by apply lookup_empty. reflexivity.
  - rewrite lookup_insert_eq. f_equal.
    assert (Hbody :
      forall initParams : gmap string InitValue,
        initParams !! "body" = Some (ro_body context) ->
        default IUndefined ((o ∪ initParams) !! "body")
        = default (ro_body context) (o !! "body")).
    { intros initParams Hp. destruct (o !! "body") as [b|] eqn:E.
      - rewrite (lookup_union_Some_l _ _ _ _ E). reflexivity.
      - rewrite lookup_union_r by exact E. rewrite Hp. reflexivity. }
    rewrite Hbody; [reflexivity|].
    rewrite lookup_insert_ne by discriminate.
    rewrite lookup_insert_ne by discriminate.
    apply lookup_insert_eq.
Qed.

(** With a [signal] of its own, [init] is what the transport gets. *)
Lemma guarded_own_signal (init : gmap string InitValue) w value :
  init !! "signal" = Some value -> guarded init w = init.
Proof.
  intros Hs. unfold guarded. apply map_eq. intros key.
  destruct (init !! key) as [v|] eqn:E.
  - apply lookup_union_Some_l, E.
  - rewrite lookup_union_r by exact E.
    apply lookup_singleton_None. congruence.
Qed.

(** X12.  [fetchWithTimeout] puts the signal of its controller before
    the properties of [init]: when [init] has a [signal] of its own,
    as an override can give it, the transport is called with [init]
    itself and never sees the signal of the timeout. *)
Theorem caller_signal_wins this url init w value :
  init !! "signal" = Some value ->
  guarded init w !! "signal" = Some value
  /\ transportCalls (snd (fetchWithTimeout this url init w))
     = (transportCalls w ++ [(url, init)])%list
  /\ (forall context o,
        o !! "signal" = Some value ->
        exists url' init',
          createFetchParams JSON_stringify this context
            (Some (OverrideInit o)) w
          = (Normal (url', init'), w)
          /\ init' !! "signal" = Some value).
Proof.
  intros Hs. split; [|split].
  - rewrite (guarded_own_signal _ _ _ Hs). exact Hs.
  - rewrite fetchWithTimeout_run. cbn [snd transportCalls].
    rewrite (guarded_own_signal _ _ _ Hs). reflexivity.
  - intros context o Ho. do 2 eexists.
    split; [apply (createFetchParams_run this context (Some (OverrideInit o)) w o eq_refl)|].
    cbv zeta. rewrite lookup_insert_ne by discriminate.
    apply lookup_union_Some_l, Ho.
Qed.

Lemma filter_fresh (n : nat) (ts : list nat) :
  forallb (fun t => (t <? n)%nat) ts = true ->
  List.filter (fun t => negb (t =? n)%nat) ts = ts.
Proof.
  induction ts as [|t ts IH]; [reflexivity|].
  cbn [forallb List.filter]. intros H.
  apply andb_true_iff in H as [Ht Hts].
  apply Nat.ltb_lt in Ht.
  destruct (Nat.eqb_spec t n); [lia|].
  cbn [negb]. rewrite IH by exact Hts. reflexivity.
Qed.

Lemma forallb_fresh_S (n : nat) (ts : list nat) :
  forallb (fun t => (t <? n)%nat) ts = true ->
  forallb (fun t => (t <? S n)%nat) ts = true.
Proof.
  rewrite !forallb_forall. intros H t Ht. specialize (H t Ht).
  apply Nat.ltb_lt in H. apply Nat.ltb_lt. lia.
Qed.

(** X13.  [fetchWithTimeout] leaves no timer behind: whether the
    transport answers or fails, the timer it armed is cleared and the
    timers that were armed before are as they were. *)
Theorem fetchWithTimeout_clears_timer this url init w :
  timersFresh w = true ->
  let w' := snd (fetchWithTimeout this url init w) in
  timers w' = timers w
  /\ nextId w' = S (nextId w)
  /\ timersFresh w' = true
  /\ ~ In (nextId w) (timers w').
Proof.
  intros Hfresh w'. unfold w'. rewrite fetchWithTimeout_run.
  cbn [snd timers nextId]. unfold timersFresh in *.
  cbn [timers nextId].
  rewrite (filter_fresh _ _ Hfresh).
  split; [reflexivity|]. split; [reflexivity|].
  split; [apply forallb_fresh_S, Hfresh|].
  intros Hin. rewrite forallb_forall in Hfresh.
  specialize (Hfresh _ Hin). apply Nat.ltb_lt in Hfresh. lia.
Qed.

(** X14.  When the exchange fails and an [onError] hook supplies a
    response, nothing is raised: [fetch] goes on to the [post] hooks
    with that response.  When an [onError] hook itself throws, that
    error is raised as it is, not wrapped. *)
Theorem onError_outcomes this url init w0 fetchParams w1 e w2 :
  forOf (preStep this) (this_middleware this)
    {| fp_url := url; fp_init := init |} w0
  = (Normal fetchParams, w1) ->
  exchange retryFn this fetchParams w1 = (Throw e, w2) ->
  (forall r w3,
      forOf (onErrorStep this fetchParams e) (this_middleware this) None w2
      = (Normal (Some r), w3) ->
      fetch retryFn this url init w0
      = forOf (postStep this fetchParams) (this_middleware this) r w3)
  /\ (forall e' w3,
        forOf (onErrorStep this fetchParams e) (this_middleware this) None w2
        = (Throw e', w3) ->
        fetch retryFn this url init w0 = (Throw e', w3)).
Proof.
  intros Hpre Hex. split.
  - intros r w3 Herr. unfold fetch, bind. rewrite Hpre.
    unfold tryCatch. rewrite Hex. unfold onFailure, bind.
    rewrite Herr. reflexivity.
  - intros e' w3 Herr. unfold fetch, bind. rewrite Hpre.
    unfold tryCatch. rewrite Hex. unfold onFailure, bind.
    rewrite Herr. reflexivity.
Qed.

(** X15.  The [pre] and the [post] hooks run outside the [try] block:
    an error that one of them throws is raised as it is, is not
    wrapped in a [FetchError] and is not offered to the [onError]
    hooks; after a failing [pre] hook there is no exchange. *)
Theorem hook_errors_escape this url init w0 e w' :
  forOf (preStep this) (this_middleware this)
    {| fp_url := url; fp_init := init |} w0 = (Throw e, w')
  \/ (exists fetchParams w1 response w2,
        forOf (preStep this) (this_middleware this)
          {| fp_url := url; fp_init := init |} w0
        = (Normal fetchParams, w1)
        /\ exchange retryFn this fetchParams w1 = (Normal response, w2)
        /\ forOf (postStep this fetchParams) (this_middleware this)
             response w2 = (Throw e, w')) ->
  fetch retryFn this url init w0 = (Throw e, w').
Proof.
  intros [Hpre | (fetchParams & w1 & response & w2 & Hpre & Hex & Hpost)];
    unfold fetch, bind; rewrite Hpre; [reflexivity|].
  unfold tryCatch. rewrite Hex. exact Hpost.
Qed.

Lemma forOf_preStep_hookless this mws fetchParams w :
  Forall (fun mw => pre mw = None) mws ->
  forOf (preStep this) mws fetchParams w = (Normal fetchParams, w).
Proof.
  induction 1 as [|mw mws Hmw _ IH]; [reflexivity|].
  cbn [forOf]. unfold bind, preStep at 1. rewrite Hmw. exact IH.
Qed.

Lemma forOf_postStep_hookless this mws fetchParams response w :
  Forall (fun mw => post mw = None) mws ->
  forOf (postStep this fetchParams) mws response w = (Normal response, w).
Proof.
  induction 1 as [|mw mws Hmw _ IH]; [reflexivity|].
  cbn [forOf]. unfold bind, postStep at 1. rewrite Hmw. exact IH.
Qed.

Lemma forOf_onErrorStep_hookless this mws fetchParams e response w :
  Forall (fun mw => onError mw = None) mws ->
  forOf (onErrorStep this fetchParams e) mws response w
  = (Normal response, w).
Proof.
  induction 1 as [|mw mws Hmw _ IH]; [reflexivity|].
  cbn [forOf]. unfold bind, onErrorStep at 1. rewrite Hmw. exact IH.
Qed.

(** [fetch] when no middleware has a hook. *)
Lemma fetch_hookless this url init w :
  Forall (fun mw => pre mw = None /\ post mw = None /\ onError mw = None)
    (this_middleware this) ->
  fetch retryFn this url init w
  = tryCatch (exchange retryFn this {| fp_url := url; fp_init := init |})
      (fun e => throw (unrecovered e)) w.
Proof.
  intros Hall.
  assert (Hpre : Forall (fun mw => pre mw = None) (this_middleware this))
    by (eapply Forall_impl; [exact Hall|]; cbn; tauto).
  assert (Hpost : Forall (fun mw => post mw = None) (this_middleware this))
    by (eapply Forall_impl; [exact Hall|]; cbn; tauto).
  assert (Herr : Forall (fun mw => onError mw = None) (this_middleware this))
    by (eapply Forall_impl; [exact Hall|]; cbn; tauto).
  unfold fetch, bind. rewrite (forOf_preStep_hookless _ _ _ _ Hpre).
  unfold tryCatch.
  destruct (exchange retryFn this _ w) as [[r|e] w1].
  - apply (forOf_postStep_hookless _ _ _ _ _ Hpost).
  - unfold onFailure, bind.
    rewrite (forOf_onErrorStep_hookless _ _ _ _ _ _ Herr).
    unfold unrecovered, throw. destruct (instanceof_Error e); reflexivity.
Qed.

(** X16.  Middleware without hooks is not there: however many entries
    the list has, when none of them has a [pre], [post] or [onError]
    hook, [fetch] is the exchange, with an error of the exchange
    wrapped in a [FetchError] unless it is not an [Error]. *)
Theorem hookless_middleware_transparent this url init w :
  Forall (fun mw => pre mw = None /\ post mw = None /\ onError mw = None)
    (this_middleware this) ->
  fetch retryFn this url init w
  = match exchange retryFn this {| fp_url := url; fp_init := init |} w with
    | (Normal response, w') => (Normal response, w')
    | (Throw e, w') =>
        (Throw (if instanceof_Error e
                then FetchError e interceptorsFailed else e), w')
    end.
Proof.
  intros Hall. rewrite (fetch_hookless _ _ _ _ Hall). unfold tryCatch.
  destruct (exchange retryFn this _ w) as [[r|e] w1]; reflexivity.
Qed.

(** What [request] returns came out of [fetch] with a status from 200
    to 299. *)
Lemma request_Normal_inv this context initOverrides w response w' :
  request JSON_stringify retryFn this context initOverrides w
  = (Normal response, w') ->
  200 <= status response < 300
  /\ exists url init w1,
       createFetchParams JSON_stringify this context initOverrides w
       = (Normal (url, init), w1)
       /\ fetch retryFn this url init w1 = (Normal response, w').
Proof.
  unfold request, bind. intros H.
  destruct (createFetchParams JSON_stringify this context initOverrides w)
    as [[[url init]|e] w1] eqn:Hparams; [|discriminate H].
  destruct (fetch retryFn this url init w1) as [[r|e] w2] eqn:Hfetch;
    [|discriminate H].
  destruct ((status r >=? 200) && (status r <? 300)) eqn:E.
  - injection H as <- <-.
    apply andb_true_iff in E as [Hge Hlt].
    apply Z.geb_le in Hge. apply Z.ltb_lt in Hlt.
    split; [lia|]. exists url, init, w1. split; [reflexivity | exact Hfetch].
  - unfold callParseError, throw in H.
    destruct (this_parseError this r (env w2)) as [[e|e] s];
      discriminate H.
Qed.

(** X17.  [request] never returns a response whose status is outside
    200 to 299, whatever the middleware, the retry policy, the override
    and the error parser do; and when it returns, it does so without a
    call of the error parser of its own: the world is as [fetch] left
    it.  What the parser produces is always raised, never returned. *)
Theorem request_returns_only_success this context initOverrides w
    response w' :
  request JSON_stringify retryFn this context initOverrides w
  = (Normal response, w') ->
  200 <= status response < 300
  /\ exists url init w1,
       createFetchParams JSON_stringify this context initOverrides w
       = (Normal (url, init), w1)
       /\ fetch retryFn this url init w1 = (Normal response, w').
Proof. apply request_Normal_inv. Qed.

(** X18.  A request on its own: with no middleware, retries disabled
    and an override that is not a function, [request] builds its
    parameters without touching the world, calls the transport exactly
    once, with the built URL, and calls the error parser only on an
    answer whose status is outside 200 to 299, once.  It returns the
    answer of the transport when the status is inside; it raises what
    the parser made of the answer when it is outside; when the
    transport fails it raises the failure wrapped in a [FetchError],
    a [TimeoutError] standing for an abort, and the parser is not
    called. *)
Theorem request_closed_run this context initOverrides w :
  this_middleware this = [] ->
  retryEnabled this = false ->
  initOverrides = None
  \/ (exists o, initOverrides = Some (OverrideInit o)) ->
  exists url init,
    createFetchParams JSON_stringify this context initOverrides w
    = (Normal (url, init), w)
    /\ let answer := this_fetchApi this url (guarded init w) (env w) in
       let result :=
         request JSON_stringify retryFn this context initOverrides w in
       transportCalls (snd result)
       = (transportCalls w ++ [(url, guarded init w)])%list
       /\ nextId (snd result) = S (nextId w)
       /\ match fst answer with
          | Normal response =>
              if (status response >=? 200) && (status response <? 300)
              then result
                   = (Normal response,
                      snd (fetchWithTimeout this url init w))
              else parseErrorCalls (snd result)
                   = (parseErrorCalls w ++ [response])%list
                   /\ fst result
                      = Throw
                          match fst (this_parseError this response
                                       (snd answer)) with
                          | Normal error | Throw error => error
                          end
          | Throw e =>
              result
              = (Throw (unrecovered
                          (if instanceof_AbortError e
                           then TimeoutError else e)),
                 snd (fetchWithTimeout this url init w))
          end.
Proof.
  intros Hmw Hoff Hov.
  assert (Hrun : exists o,
    match initOverrides with
    | Some (OverrideInit o) => Some o
    | None => Some ∅
    | Some (OverrideFunction _) => None
    end = Some o).
  { destruct Hov as [-> | (o & ->)]; eexists; reflexivity. }
  destruct Hrun as (o & Hsel).
  pose proof (createFetchParams_run this context initOverrides w o Hsel)
    as Hparams.
  cbv zeta in Hparams.
  match type of Hparams with
  | _ = (Normal (?u, ?i), _) => set (url := u) in *; set (init := i) in *
  end.
  exists url, init. split; [exact Hparams|].
  assert (Hfetch :
    fetch retryFn this url init w
    = tryCatch (fetchWithTimeout this url init)
        (fun e => throw (unrecovered e)) w).
  { rewrite fetch_hookless by (rewrite Hmw; constructor).
    unfold tryCatch, exchange. rewrite Hoff. reflexivity. }
  cbv zeta. unfold request, bind. rewrite Hparams, Hfetch.
  unfold tryCatch. rewrite fetchWithTimeout_run.
  destruct (this_fetchApi this url (guarded init w) (env w))
    as [[response|e] s]; cbn [fst snd].
  - destruct ((status response >=? 200) && (status response <? 300)).
    + cbn [fst snd transportCalls nextId]. repeat split.
    + unfold callParseError, throw.
      cbn [env nextId timers transportCalls parseErrorCalls].
      destruct (this_parseError this response s) as [[error|error] s'];
        cbn [fst snd transportCalls nextId parseErrorCalls];
        repeat split.
  - unfold throw. cbn [fst snd transportCalls nextId]. repeat split.
Qed.


End ExecutorCoverage.

(** * Properties of the query string and of the helpers of the managers *)

Section HelperCoverage.
Import JS Runtime.

Lemma append_assoc (s t u : string) : (s +:+ t) +:+ u = s +:+ t +:+ u.
Proof.
  induction s as [|a s IH]; [reflexivity|].
  rewrite !append_cons, IH. reflexivity.
Qed.

Lemma countChar_append c (s t : string) :
  countChar c (s +:+ t) = (countChar c s + countChar c t)%nat.
Proof.
  induction s as [|a s IH]; [reflexivity|].
  rewrite append_cons. cbn [countChar]. rewrite IH. lia.
Qed.

Lemma countChar_absent c (s : string) :
  contains c s = false -> countChar c s = 0%nat.
Proof.
  induction s as [|a s IH]; [reflexivity|].
  cbn [contains countChar]. intros H.
  apply orb_false_iff in H as [Ha Hs].
  rewrite Ha, IH by exact Hs. reflexivity.
Qed.

(** The digits of a percent-encoded byte are unreserved characters. *)
Lemma hexDigit_unreserved (n : N) :
  (n < 16)%N -> isUnreserved (hexDigit n) = true.
Proof.
  intros Hn.
  assert (Hall :
    forallb (fun k => isUnreserved (hexDigit (N.of_nat k))) (seq 0 16)
    = true) by reflexivity.
  rewrite forallb_forall in Hall. specialize (Hall (N.to_nat n)).
  rewrite N2Nat.id in Hall. apply Hall. apply in_seq. lia.
Qed.

(** [encodeURIComponent] writes unreserved characters and percent
    signs, nothing else. *)
Lemma encodeURIComponent_charset (s : string) (c : ascii) :
  contains c (encodeURIComponent s) = true ->
  c = "%"%char \/ isUnreserved c = true.
Proof.
  induction s as [|a s IH]; [discriminate|].
  cbn [encodeURIComponent]. rewrite contains_append.
  intros H. apply orb_true_iff in H as [H|H]; [|apply IH, H].
  destruct (isUnreserved a) eqn:Ea.
  - cbn in H. rewrite orb_false_r in H.
    apply bool_decide_eq_true_1 in H. subst. right. exact Ea.
  - unfold percentEncode in H. cbn [contains] in H.
    rewrite orb_false_r in H.
    apply orb_true_iff in H as [H|H];
      [left; apply bool_decide_eq_true_1 in H; congruence|].
    pose proof (N_ascii_bounded a) as Hb.
    right. apply orb_true_iff in H as [H|H];
      apply bool_decide_eq_true_1 in H; subst c;
      apply hexDigit_unreserved.
    + apply N.Div0.div_lt_upper_bound. exact Hb.
    + apply N.mod_lt. discriminate.
Qed.

Lemma encodeURIComponent_reserved (s : string) (c : ascii) :
  isUnreserved c = false -> c <> "%"%char ->
  contains c (encodeURIComponent s) = false.
Proof.
  intros Hc Hp. destruct (contains c (encodeURIComponent s)) eqn:E;
    [|reflexivity].
  apply encodeURIComponent_charset in E as [E|E]; congruence.
Qed.

(** Percent-encoding loses nothing. *)
Lemma hexDigit_inj (n m : N) :
  (n < 16)%N -> (m < 16)%N -> hexDigit n = hexDigit m -> n = m.
Proof.
  intros Hn Hm H. apply (f_equal N_of_ascii) in H. unfold hexDigit in H.
  destruct (N.ltb_spec n 10), (N.ltb_spec m 10);
    rewrite !N_ascii_embedding in H by lia; lia.
Qed.

Lemma percentEncode_inj (a b : ascii) :
  percentEncode a = percentEncode b -> a = b.
Proof.
  unfold percentEncode. intros [= Hhigh Hlow].
  pose proof (N_ascii_bounded a) as Ha.
  pose proof (N_ascii_bounded b) as Hb.
  apply hexDigit_inj in Hhigh;
    [|apply N.Div0.div_lt_upper_bound; assumption ..].
  apply hexDigit_inj in Hlow; [|apply N.mod_lt; discriminate ..].
  rewrite <- (ascii_N_embedding a), <- (ascii_N_embedding b).
  f_equal.
  rewrite (N.div_mod (N_of_ascii a) 16), (N.div_mod (N_of_ascii b) 16)
    by discriminate.
  rewrite Hhigh, Hlow. reflexivity.
Qed.

Lemma encodeURIComponent_inj (s t : string) :
  encodeURIComponent s = encodeURIComponent t -> s = t.
Proof.
  revert t. induction s as [|a s IH]; intros [|b t];
    cbn [encodeURIComponent]; intros H.
  - reflexivity.
  - destruct (isUnreserved b); discriminate H.
  - destruct (isUnreserved a); discriminate H.
  - destruct (isUnreserved a) eqn:Ea, (isUnreserved b) eqn:Eb.
    + injection H as -> H. f_equal. apply IH, H.
    + injection H as -> _. discriminate Ea.
    + injection H as <- _. discriminate Eb.
    + unfold percentEncode in H. injection H as Hhigh Hlow H.
      f_equal; [|apply IH, H].
      apply percentEncode_inj. unfold percentEncode. congruence.
Qed.

Lemma join_prefixed (k : string) (parts : list string) :
  parts <> [] ->
  k +:+ join ("&" +:+ k) parts = join "&" (map (fun p => k +:+ p) parts).
Proof.
  induction parts as [|p [|q rest] IH]; [contradiction | reflexivity |].
  intros _.
  change (join ("&" +:+ k) (p :: q :: rest))
    with (p +:+ ("&" +:+ k) +:+ join ("&" +:+ k) (q :: rest)).
  change (join "&" (map (fun p => k +:+ p) (p :: q :: rest)))
    with ((k +:+ p) +:+ "&"
          +:+ join "&" (map (fun p => k +:+ p) (q :: rest))).
  rewrite <- IH by discriminate. rewrite !append_assoc. reflexivity.
Qed.

Lemma querystringSingleKey_array key (items : list JsValue) :
  items <> [] ->
  querystringSingleKey key (JArray items)
  = join "&" (map (pairOf key) items).
Proof.
  intros Hne. unfold querystringSingleKey.
  rewrite <- append_assoc.
  rewrite join_prefixed by (destruct items; [contradiction | discriminate]).
  rewrite map_map. f_equal. apply map_ext. intros v.
  unfold pairOf. apply append_assoc.
Qed.

(** X19.  An array value is written as one [key=value] pair for each of
    its entries, the pairs joined by [&], each pair as the string of
    the entry would be written on its own for that key; an array
    without entries is written as the key and an equals sign. *)
Theorem array_value_repeats_key key (items : list JsValue) :
  items <> [] ->
  querystringSingleKey key (JArray items)
  = join "&"
      (map (fun entry => querystringSingleKey key (JString (toString entry)))
         items)
  /\ querystringSingleKey key (JArray []) = encodeURIComponent key +:+ "=".
Proof.
  intros Hne. split.
  - apply (querystringSingleKey_array key items Hne).
  - unfold querystringSingleKey. cbn [map join].
    rewrite append_empty_r. reflexivity.
Qed.

Lemma countChar_join c sep (parts : list string) :
  countChar c (join sep parts)
  = (list_sum (map (countChar c) parts)
     + (length parts - 1) * countChar c sep)%nat.
Proof.
  induction parts as [|p [|q rest] IH]; [reflexivity | cbn; lia |].
  change (join sep (p :: q :: rest))
    with (p +:+ sep +:+ join sep (q :: rest)).
  rewrite !countChar_append, IH. cbn [map list_sum fold_right length]. lia.
Qed.

Lemma countChar_pairOf key value :
  countChar "=" (pairOf key value) = 1%nat
  /\ countChar "&" (pairOf key value) = 0%nat.
Proof.
  unfold pairOf. rewrite !countChar_append.
  rewrite !(countChar_absent _ (encodeURIComponent _))
    by (apply encodeURIComponent_reserved; [reflexivity | discriminate]).
  split; reflexivity.
Qed.

Lemma countChar_pairs c key (items : list JsValue) (n : nat) :
  (forall value, countChar c (pairOf key value) = n) ->
  list_sum (map (countChar c) (map (pairOf key) items))
  = (length items * n)%nat.
Proof.
  intros H. induction items as [|x rest IH]; [reflexivity|].
  cbn [map list_sum fold_right length]. rewrite H.
  change (fold_right Nat.add 0%nat
            (map (countChar c) (map (pairOf key) rest)))
    with (list_sum (map (countChar c) (map (pairOf key) rest))).
  rewrite IH. lia.
Qed.

Lemma countChar_querystringSingleKey key value :
  countChar "=" (querystringSingleKey key value) = pairsOfValue value
  /\ countChar "&" (querystringSingleKey key value)
     = (pairsOfValue value - 1)%nat.
Proof.
  assert (Hscalar :
    countChar "=" (pairOf key value) = 1%nat
    /\ countChar "&" (pairOf key value) = (1 - 1)%nat)
    by apply countChar_pairOf.
  destruct value as [| | | | |items|]; try exact Hscalar.
  destruct items as [|x rest].
  - unfold querystringSingleKey. cbn [map join pairsOfValue length].
    rewrite !countChar_append.
    rewrite !(countChar_absent _ (encodeURIComponent _))
      by (apply encodeURIComponent_reserved; [reflexivity | discriminate]).
    split; reflexivity.
  - rewrite querystringSingleKey_array by discriminate.
    rewrite !countChar_join.
    rewrite (countChar_pairs "=" key _ 1)
      by (intros v; apply countChar_pairOf).
    rewrite (countChar_pairs "&" key _ 0)
      by (intros v; apply countChar_pairOf).
    rewrite length_map.
    change (countChar "=" "&") with 0%nat.
    change (countChar "&" "&") with 1%nat.
    cbn [pairsOfValue length]. split; lia.
Qed.

Lemma filter_nonempty_parts (params : HTTPQuery) :
  List.filter (fun part => (0 <? String.length part)%nat)
    (map (fun kv => querystringSingleKey kv.1 kv.2) params)
  = map (fun kv => querystringSingleKey kv.1 kv.2) params.
Proof.
  induction params as [|kv params IH]; [reflexivity|].
  cbn [map List.filter]. rewrite querystringSingleKey_nonempty, IH.
  reflexivity.
Qed.

Lemma pairsOfValue_positive value : (1 <= pairsOfValue value)%nat.
Proof. destruct value; cbn; lia. Qed.

(** X20.  Keys and values cannot smuggle separators into the query
    string: it holds one equals sign for each pair it writes and one
    ampersand between two pairs, whatever characters the keys and the
    values are made of. *)
Theorem querystring_separators (params : HTTPQuery) :
  countChar "=" (querystring params) = pairsOf params
  /\ countChar "&" (querystring params) = (pairsOf params - 1)%nat.
Proof.
  assert (Hsum :
    list_sum (map (countChar "=")
                (map (fun kv => querystringSingleKey kv.1 kv.2) params))
    = pairsOf params
    /\ (list_sum (map (countChar "&")
                    (map (fun kv => querystringSingleKey kv.1 kv.2) params))
        + length params)%nat
       = pairsOf params).
  { unfold pairsOf. induction params as [|kv params (IH1 & IH2)];
      [split; reflexivity|].
    cbn [map list_sum fold_right length].
    destruct (countChar_querystringSingleKey kv.1 kv.2) as [-> ->].
    pose proof (pairsOfValue_positive kv.2).
    unfold list_sum in *. split; lia. }
  destruct params as [|kv params]; [split; reflexivity|].
  unfold querystring. rewrite filter_nonempty_parts, !countChar_join.
  rewrite length_map.
  change (countChar "=" "&") with 0%nat.
  change (countChar "&" "&") with 1%nat.
  destruct Hsum as (-> & Hamp). cbn [length] in *. split; lia.
Qed.

(** X21.  [canConsumeForm] holds exactly when one of the entries has
    the content type [multipart/form-data], letter for letter. *)
Theorem canConsumeForm_spec (consumes : list Consume) :
  canConsumeForm consumes = true
  <-> exists consume,
        In consume consumes /\ contentType consume = "multipart/form-data".
Proof.
  induction consumes as [|c rest IH].
  - split; [discriminate | intros (x & [] & _)].
  - cbn [canConsumeForm].
    destruct (bool_decide ("multipart/form-data" = contentType c)) eqn:E.
    + apply bool_decide_eq_true_1 in E. split; [|reflexivity].
      intros _. exists c. split; [left; reflexivity | congruence].
    + apply bool_decide_eq_false_1 in E. rewrite IH. split.
      * intros (x & Hin & Hx). exists x. split; [right; exact Hin | exact Hx].
      * intros (x & [<- | Hin] & Hx); [congruence|].
        exists x. split; assumption.
Qed.

(** X22.  [validateRequiredRequestParams] returns when none of the keys
    is [null] or [undefined] in the parameters; otherwise it raises a
    [RequiredError] for the first key, in the order given, that is, and
    its message names that key. *)
Theorem validateRequiredRequestParams_first_missing
    (requestParameters : gmap string JsValue) (keys : list string) :
  match validateRequiredRequestParams requestParameters keys with
  | Normal _ =>
      Forall (fun key => isNullish (get requestParameters key) = false) keys
  | Throw e =>
      exists before key after,
        keys = (before ++ key :: after)%list
        /\ Forall (fun key => isNullish (get requestParameters key) = false)
             before
        /\ isNullish (get requestParameters key) = true
        /\ e = RequiredError key
                 ("Required parameter requestParameters." +:+ key
                  +:+ " was null or undefined.")
  end.
Proof.
  induction keys as [|key rest IH]; [constructor|].
  cbn [validateRequiredRequestParams].
  destruct (isNullish (get requestParameters key)) eqn:E.
  - exists [], key, rest. split; [reflexivity|].
    split; [constructor|]. split; [exact E | reflexivity].
  - destruct (validateRequiredRequestParams requestParameters rest).
    + constructor; assumption.
    + destruct IH as (before & k & after & -> & Hb & Hk & ->).
      exists (key :: before), k, after. split; [reflexivity|].
      split; [constructor; assumption|]. split; [exact Hk | reflexivity].
Qed.

Lemma queryParamStep_Throw requestParameters keys e :
  fold_left (queryParamStep requestParameters) keys (Throw e) = Throw e.
Proof. induction keys as [|entry keys IH]; [reflexivity | exact IH]. Qed.

Lemma queryParamStep_cons requestParameters key config keys acc :
  fold_left (queryParamStep requestParameters) ((key, config) :: keys)
    (Normal acc)
  = match queryParamValue requestParameters key config with
    | Normal value =>
        fold_left (queryParamStep requestParameters) keys
          (Normal (if negb (isUndefined value)
                   then <[ key := value ]> acc else acc))
    | Throw e => Throw e
    end.
Proof.
  cbn [fold_left]. unfold queryParamStep at 2. cbn.
  destruct (queryParamValue requestParameters key config) as [value|e];
    [reflexivity | apply queryParamStep_Throw].
Qed.

(** What the reduction holds for a key came from the accumulator or
    from an entry of the list for that key. *)
Lemma applyQueryParams_origin requestParameters keys acc m :
  fold_left (queryParamStep requestParameters) keys (Normal acc) = Normal m ->
  forall key value,
    m !! key = Some value ->
    acc !! key = Some value
    \/ (value <> JUndefined
        /\ exists config,
             In (key, config) keys
             /\ queryParamValue requestParameters key config = Normal value).
Proof.
  revert acc. induction keys as [|[k c] keys IH]; intros acc Hrun key value Hm.
  - injection Hrun as <-. left. exact Hm.
  - rewrite queryParamStep_cons in Hrun.
    destruct (queryParamValue requestParameters k c) as [v|e] eqn:Ev;
      [|discriminate Hrun].
    destruct (IH _ Hrun key value Hm) as [Hacc | (Hne & config & Hin & Hv)].
    + destruct (isUndefined v) eqn:Eu; cbn [negb] in Hacc;
        [left; exact Hacc|].
      destruct (decide (k = key)) as [-> | Hk].
      * rewrite lookup_insert_eq in Hacc. injection Hacc as ->.
        right. split; [intros ->; discriminate Eu|].
        exists c. split; [left; reflexivity | exact Ev].
      * rewrite lookup_insert_ne in Hacc by exact Hk. left. exact Hacc.
    + right. split; [exact Hne|]. exists config.
      split; [right; exact Hin | exact Hv].
Qed.

Lemma applyQueryParams_other requestParameters keys acc m key :
  fold_left (queryParamStep requestParameters) keys (Normal acc) = Normal m ->
  ~ In key (map fst keys) ->
  m !! key = acc !! key.
Proof.
  revert acc. induction keys as [|[k c] keys IH]; intros acc Hrun Hkey.
  - injection Hrun as <-. reflexivity.
  - rewrite queryParamStep_cons in Hrun.
    destruct (queryParamValue requestParameters k c) as [v|e];
      [|discriminate Hrun].
    cbn [map fst In] in Hkey.
    rewrite (IH _ Hrun) by tauto.
    destruct (negb (isUndefined v)); [|reflexivity].
    apply lookup_insert_ne. tauto.
Qed.

Lemma applyQueryParams_entry requestParameters keys acc m :
  fold_left (queryParamStep requestParameters) keys (Normal acc) = Normal m ->
  List.NoDup (map fst keys) ->
  forall key config,
    In (key, config) keys ->
    exists value,
      queryParamValue requestParameters key config = Normal value
      /\ m !! key = if isUndefined value then acc !! key else Some value.
Proof.
  revert acc. induction keys as [|[k c] keys IH];
    intros acc Hrun Hnd key config Hin; [destruct Hin|].
  rewrite queryParamStep_cons in Hrun.
  destruct (queryParamValue requestParameters k c) as [v|e] eqn:Ev;
    [|discriminate Hrun].
  cbn [map fst] in Hnd. apply List.NoDup_cons_iff in Hnd as [Hk Hnd].
  destruct Hin as [[= -> ->] | Hin].
  - exists v. split; [exact Ev|].
    rewrite (applyQueryParams_other _ _ _ _ _ Hrun Hk).
    destruct (isUndefined v); cbn [negb];
      [reflexivity | apply lookup_insert_eq].
  - destruct (IH _ Hrun Hnd key config Hin) as (value & Hv & Hm).
    exists value. split; [exact Hv|]. rewrite Hm.
    destruct (isUndefined value); [|reflexivity].
    destruct (negb (isUndefined v)); [|reflexivity].
    apply lookup_insert_ne. intros ->. apply Hk.
    apply (List.in_map fst) in Hin. exact Hin.
Qed.

(** X23.  The object that [applyQueryParams] returns has entries for
    listed keys only, never holds [undefined], and, when no key is
    listed twice, holds for each listed key the value its
    configuration gives: the parameter itself, or for an array in a
    collection format the entries joined by the separator of the
    format; a key whose value comes out [undefined] has no entry. *)
Theorem applyQueryParams_result requestParameters keys m :
  applyQueryParams requestParameters keys = Normal m ->
  (forall key value,
      m !! key = Some value ->
      value <> JUndefined
      /\ exists config,
           In (key, config) keys
           /\ queryParamValue requestParameters key config = Normal value)
  /\ (List.NoDup (map fst keys) ->
      forall key config,
        In (key, config) keys ->
        (isSet (isArray config) = false
         \/ isSet (isCollectionFormatMulti config) = true ->
         m !! key
         = if isUndefined (get requestParameters key) then None
           else Some (get requestParameters key))
        /\ (isSet (isArray config) = true ->
            isSet (isCollectionFormatMulti config) = false ->
            exists items,
              get requestParameters key = JArray items
              /\ m !! key
                 = Some (JString
                           (joinArray
                              (default ","
                                 (COLLECTION_FORMATS
                                    <$> collectionFormat config))
                              items)))).
Proof.
  unfold applyQueryParams. intros Hrun. split.
  - intros key value Hm.
    destruct (applyQueryParams_origin _ _ _ _ Hrun key value Hm)
      as [Hacc | H]; [|exact H].
    rewrite lookup_empty in Hacc. discriminate Hacc.
  - intros Hnd key config Hin.
    destruct (applyQueryParams_entry _ _ _ _ Hrun Hnd key config Hin)
      as (value & Hv & Hm).
    rewrite lookup_empty in Hm. unfold queryParamValue in Hv. split.
    + intros Hplain. rewrite Hm.
      destruct (isSet (isArray config)).
      * destruct Hplain as [Hplain | Hplain]; [discriminate Hplain|].
        rewrite Hplain in Hv. injection Hv as <-. reflexivity.
      * destruct (isUndefined (get requestParameters key)) eqn:Eu;
          cbn [negb] in Hv; injection Hv as <-; [reflexivity|].
        rewrite Eu. reflexivity.
    + intros Harr Hmulti. rewrite Harr, Hmulti in Hv.
      destruct (get requestParameters key) as [| | | | |items|];
        try discriminate Hv.
      injection Hv as <-. exists items. split; [reflexivity|]. exact Hm.
Qed.

(** X24.  [applyQueryParams] fails exactly when a listed key is
    configured as an array in a collection format that is not [multi]
    and the parameter is not an array; a parameter that was left out is
    such a one.  It then fails with a [TypeError], whatever entries
    come after. *)
Theorem applyQueryParams_failure requestParameters keys :
  let unjoinable (entry : string * QueryParamConfig) :=
    isSet (isArray entry.2) = true
    /\ isSet (isCollectionFormatMulti entry.2) = false
    /\ JS.isArray (get requestParameters entry.1) = false in
  match applyQueryParams requestParameters keys with
  | Normal _ => Forall (fun entry => ~ unjoinable entry) keys
  | Throw e => e = joinTypeError /\ Exists unjoinable keys
  end.
Proof.
  intros unjoinable. unfold applyQueryParams.
  generalize (∅ : gmap string JsValue).
  induction keys as [|[k c] keys IH]; intros acc; [constructor|].
  rewrite queryParamStep_cons.
  assert (Hvalue :
    match queryParamValue requestParameters k c with
    | Normal _ => ~ unjoinable (k, c)
    | Throw e => e = joinTypeError /\ unjoinable (k, c)
    end).
  { unfold queryParamValue, unjoinable. cbn [fst snd].
    destruct (isSet (isArray c));
      [|destruct (negb _); intros (H & _); discriminate H].
    destruct (isSet (isCollectionFormatMulti c));
      [intros (_ & H & _); discriminate H|].
    destruct (get requestParameters k); cbn;
      first [ intros (_ & _ & H); discriminate H | repeat split ]. }
  destruct (queryParamValue requestParameters k c) as [v|e].
  - specialize (IH (if negb (isUndefined v) then <[ k := v ]> acc else acc)).
    destruct (fold_left _ keys _) as [m|e].
    + constructor; assumption.
    + destruct IH as [-> Hex]. split; [reflexivity|].
      apply Exists_cons_tl, Hex.
  - destruct Hvalue as [-> Hk]. split; [reflexivity|].
    apply Exists_cons_hd, Hk.
Qed.

End HelperCoverage.

(** * Properties of the keys manager *)

Section ManagerCoverage.
Import JS Runtime.

Context {Sigma : Type}.
Variable JSON_stringify : InitValue -> InitValue.
Variable retryFn :
  @M Sigma Response -> gmap string JsValue -> @M Sigma Response.
Variable JSON_parse : string -> Completion Thrown JsValue.
Variable headersOf : Response -> gmap string string.

Implicit Types (this : @BaseAPI Sigma) (w : @World Sigma).

Local Abbreviation keysGet :=
  (KeysManager_get JSON_stringify retryFn JSON_parse headersOf).
Local Abbreviation keysGetAll :=
  (KeysManager_getAll JSON_stringify retryFn JSON_parse headersOf).
Local Abbreviation keysRotate :=
  (KeysManager_rotate JSON_stringify retryFn JSON_parse headersOf).
Local Abbreviation keysRevoke :=
  (KeysManager_revoke JSON_stringify retryFn JSON_parse headersOf).

(** X25.  Without a key id, [get] and [revoke] raise the
    [RequiredError] for [kid] at once: no parameters are built, the
    transport is not called, the world is as it was. *)
Theorem KeysManager_requires_kid this requestParameters initOverrides w :
  isNullish (get requestParameters "kid") = true ->
  let missing :=
    RequiredError "kid"
      "Required parameter requestParameters.kid was null or undefined." in
  keysGet this requestParameters initOverrides w = (Throw missing, w)
  /\ keysRevoke this requestParameters initOverrides w = (Throw missing, w).
Proof.
  intros Hkid missing.
  unfold KeysManager_get, KeysManager_revoke, bind, liftCompletion.
  cbn [validateRequiredRequestParams]. rewrite Hkid. split; reflexivity.
Qed.

(** X26.  The key id cannot leave its place in the path: the paths of
    [get] and [revoke] are the fixed segments around the encoded key
    id, and the encoded key id holds no slash, question mark or hash.
    It holds no dollar sign either, so that [replace] inserts it as it
    is. *)
Theorem signingKeyPath_one_segment (requestParameters : gmap string JsValue) :
  let kid := encodeURIComponent (toString (get requestParameters "kid")) in
  signingKeyPath "/keys/signing/{kid}" requestParameters
  = "/keys/signing/" +:+ kid
  /\ signingKeyPath "/keys/signing/{kid}/revoke" requestParameters
     = "/keys/signing/" +:+ kid +:+ "/revoke"
  /\ Forall (fun c => contains c kid = false) [ "/"; "?"; "#"; "$" ]%char.
Proof.
  intros kid. split; [|split].
  - unfold signingKeyPath. fold kid. vm_compute replaceFirst.
    cbn. rewrite append_empty_r. reflexivity.
  - unfold signingKeyPath. fold kid. cbn. reflexivity.
  - repeat constructor;
      (apply encodeURIComponent_reserved; [reflexivity | discriminate]).
Qed.

(** What a method of the manager returns is built from a response that
    [request] returned. *)
Lemma envelope_inv this context initOverrides w envelope w' :
  bind (request JSON_stringify retryFn this context initOverrides)
    (JSONApiResponse_fromResponse JSON_parse headersOf) w
  = (Normal envelope, w') ->
  exists response,
    request JSON_stringify retryFn this context initOverrides w
    = (Normal response, w')
    /\ 200 <= status response < 300
    /\ JSON_parse (body response) = Normal (data envelope)
    /\ ar_status envelope = status response
    /\ ar_statusText envelope = statusText response
    /\ ar_headers envelope = headersOf response.
Proof.
  unfold bind at 1. intros H.
  destruct (request JSON_stringify retryFn this context initOverrides w)
    as [[response|e] w1] eqn:Hreq; [|discriminate H].
  unfold JSONApiResponse_fromResponse, bind, liftCompletion, ret in H.
  destruct (JSON_parse (body response)) as [value|e] eqn:Hparse;
    [|discriminate H].
  injection H as <- <-. exists response.
  split; [reflexivity|].
  split; [apply (request_Normal_inv _ _ _ _ _ _ _ _ Hreq)|].
  repeat split. exact Hparse.
Qed.

(** X27.  What a method of the keys manager returns is the parsed body
    of a response that [request] returned for the description of that
    method: [GET] and [PUT] on the path of the key for [get] and
    [revoke], [GET /keys/signing] for [getAll], [POST
    /keys/signing/rotate] for [rotate].  Its status is from 200 to 299,
    its data is what [JSON.parse] makes of the body, and its status
    text and headers are those of the response.  [get] and [revoke]
    return only when given a key id. *)
Theorem KeysManager_envelope this requestParameters initOverrides w :
  let returns (call : @M Sigma (ApiResponse JsValue))
      (context : RequestOpts) :=
    forall envelope w',
      call w = (Normal envelope, w') ->
      exists response,
        request JSON_stringify retryFn this context initOverrides w
        = (Normal response, w')
        /\ 200 <= status response < 300
        /\ JSON_parse (body response) = Normal (data envelope)
        /\ ar_status envelope = status response
        /\ ar_statusText envelope = statusText response
        /\ ar_headers envelope = headersOf response in
  returns (keysGet this requestParameters initOverrides)
    (describe (signingKeyPath "/keys/signing/{kid}" requestParameters) "GET")
  /\ returns (keysRevoke this requestParameters initOverrides)
       (describe
          (signingKeyPath "/keys/signing/{kid}/revoke" requestParameters)
          "PUT")
  /\ returns (keysGetAll this initOverrides)
       (describe "/keys/signing" "GET")
  /\ returns (keysRotate this initOverrides)
       (describe "/keys/signing/rotate" "POST")
  /\ (forall envelope w',
        keysGet this requestParameters initOverrides w
        = (Normal envelope, w')
        \/ keysRevoke this requestParameters initOverrides w
           = (Normal envelope, w') ->
        isNullish (get requestParameters "kid") = false).
Proof.
  intros returns.
  assert (Hguard :
    forall (k : unit -> @M Sigma (ApiResponse JsValue)) envelope w',
      bind (liftCompletion
              (validateRequiredRequestParams requestParameters ["kid"])) k w
      = (Normal envelope, w') ->
      isNullish (get requestParameters "kid") = false
      /\ k tt w = (Normal envelope, w')).
  { intros k envelope w'. unfold bind at 1, liftCompletion.
    cbn [validateRequiredRequestParams].
    destruct (isNullish (get requestParameters "kid"));
      [discriminate | intros H; split; [reflexivity | exact H]]. }
  unfold returns. repeat split.
  - intros envelope w' H. apply Hguard in H as [_ H].
    apply envelope_inv, H.
  - intros envelope w' H. apply Hguard in H as [_ H].
    apply envelope_inv, H.
  - intros envelope w' H. apply envelope_inv, H.
  - intros envelope w' H. apply envelope_inv, H.
  - intros envelope w' [H | H]; apply Hguard in H as [Hkid _]; exact Hkid.
Qed.

(** X29.  Two key ids address the same signing key only when they
    are the same string: the path of [get], and that of [revoke], is
    different for different key ids. *)
Theorem signingKeyPath_injective
    (requestParameters requestParameters' : gmap string JsValue) :
  signingKeyPath "/keys/signing/{kid}" requestParameters
  = signingKeyPath "/keys/signing/{kid}" requestParameters'
  \/ signingKeyPath "/keys/signing/{kid}/revoke" requestParameters
     = signingKeyPath "/keys/signing/{kid}/revoke" requestParameters' ->
  toString (get requestParameters "kid")
  = toString (get requestParameters' "kid").
Proof.
  assert (Hget : forall rp : gmap string JsValue,
    signingKeyPath "/keys/signing/{kid}" rp
    = "/keys/signing/"
      +:+ encodeURIComponent (toString (get rp "kid"))).
  { intros rp. unfold signingKeyPath. cbn.
    rewrite append_empty_r. reflexivity. }
  assert (Hrevoke : forall rp : gmap string JsValue,
    signingKeyPath "/keys/signing/{kid}/revoke" rp
    = "/keys/signing/"
      +:+ encodeURIComponent (toString (get rp "kid")) +:+ "/revoke").
  { intros rp. unfold signingKeyPath. cbn. reflexivity. }
  assert (Hcut : forall s t : string,
    contains "/" s = false -> contains "/" t = false ->
    s +:+ "/revoke" = t +:+ "/revoke" -> s = t).
  { induction s as [|a s IH]; intros [|b t] Hs Ht H.
    - reflexivity.
    - exfalso. rewrite append_cons in H. injection H as <- _.
      discriminate Ht.
    - exfalso. rewrite append_cons in H. injection H as -> _.
      discriminate Hs.
    - rewrite !append_cons in H. injection H as -> H.
      cbn [contains] in Hs, Ht.
      apply orb_false_iff in Hs as [_ Hs].
      apply orb_false_iff in Ht as [_ Ht].
      f_equal. apply IH; assumption. }
  intros [H | H]; apply encodeURIComponent_inj.
  - rewrite !Hget in H. apply (String.app_inj "/keys/signing/") in H.
    exact H.
  - rewrite !Hrevoke in H. apply (String.app_inj "/keys/signing/") in H.
    apply Hcut in H; [exact H | |];
      (apply encodeURIComponent_reserved; [reflexivity | discriminate]).
Qed.

End ManagerCoverage.

Section CoverageExamples.
Import JS Runtime.

Local Ltac run := vm_compute; first [reflexivity | discriminate].

Example default_header_taken_back :
  exists url init,
    createFetchParams stringifyUndefined
      (sampleApiWith (answering ok200) None [] (Some defaultHeaders))
      plainGetLog None start
    = (Normal (url, init), start)
    /\ init !! "headers"
       = Some (IHeaders {[ "user-agent" := "node"; "x-trace" := "1" ]}).
Proof. do 2 eexists. split; [reflexivity | run]. Qed.

(** The default [accept] header is taken back by the request. *)
Lemma createFetchParams_headers_witness :
  exists url init merged,
    createFetchParams stringifyUndefined
      (sampleApiWith (answering ok200) None [] (Some defaultHeaders))
      plainGetLog None start
    = (Normal (url, init), start)
    /\ init !! "headers" = Some (IHeaders merged)
    /\ merged !! "accept" = None
    /\ merged !! "user-agent" = Some "node".
Proof.
  destruct (createFetchParams_headers stringifyUndefined
              (sampleApiWith (answering ok200) None [] (Some defaultHeaders))
              plainGetLog None start)
    as (url & init & merged & Hrun & Hinit & Hmerged & Hundefined);
    [left; reflexivity|].
  exists url, init, merged. split; [exact Hrun|]. split; [exact Hinit|].
  split; [apply Hundefined; run | rewrite Hmerged; run].
Defined.

(** An override with a signal of its own. *)
Lemma caller_signal_wins_witness :
  guarded ownSignal start !! "signal" = Some (ISignal 7)
  /\ transportCalls
       (snd (fetchWithTimeout (sampleApi (answering ok200) None)
               getLogUrl ownSignal start))
     = [(getLogUrl, ownSignal)].
Proof.
  destruct (caller_signal_wins stringifyUndefined
              (sampleApi (answering ok200) None) getLogUrl ownSignal start
              (ISignal 7))
    as (Hsignal & Hcalls & _); [run|].
  split; [exact Hsignal | exact Hcalls].
Defined.

(** A failing transport, from a world with an older timer. *)
Lemma fetchWithTimeout_clears_timer_witness :
  let w := {| env := tt; nextId := 3; timers := [1%nat];
              transportCalls := []; parseErrorCalls := [] |} in
  let w' := snd (fetchWithTimeout (sampleApi (failing AbortError) None)
                   getLogUrl getLogInit w) in
  timers w' = [1%nat]
  /\ nextId w' = 4%nat
  /\ timersFresh w' = true
  /\ ~ In 3%nat (timers w').
Proof.
  intros w.
  apply (fetchWithTimeout_clears_timer (sampleApi (failing AbortError) None)
           getLogUrl getLogInit w).
  reflexivity.
Defined.

(** A failing transport and a hook that answers in its place. *)
Lemma onError_outcomes_witness :
  fetch oneAttempt
    (sampleApiWith (failing AbortError) retriesDisabled
       [recoveringWith ok200] None)
    getLogUrl getLogInit start
  = (Normal ok200, afterOneCall).
Proof.
  destruct (onError_outcomes oneAttempt
              (sampleApiWith (failing AbortError) retriesDisabled
                 [recoveringWith ok200] None)
              getLogUrl getLogInit start
              {| fp_url := getLogUrl; fp_init := getLogInit |} start
              TimeoutError afterOneCall)
    as (Hrecovered & _); [run | run |].
  rewrite (Hrecovered ok200 afterOneCall) by run. run.
Defined.

(** A [pre] hook that throws: nothing is sent. *)
Lemma hook_errors_escape_witness :
  fetch oneAttempt
    (sampleApiWith (answering ok200) None
       [refusing (OtherError "Error" "no")] None)
    getLogUrl getLogInit start
  = (Throw (OtherError "Error" "no"), start).
Proof.
  apply (hook_errors_escape oneAttempt
           (sampleApiWith (answering ok200) None
              [refusing (OtherError "Error" "no")] None)
           getLogUrl getLogInit start).
  left. run.
Defined.

(** Two middleware objects without hooks. *)
Lemma hookless_middleware_transparent_witness :
  fetch oneAttempt
    (sampleApiWith (answering ok200) None [idle; idle] None)
    getLogUrl getLogInit start
  = (Normal ok200, afterOneCall).
Proof.
  rewrite (hookless_middleware_transparent oneAttempt
             (sampleApiWith (answering ok200) None [idle; idle] None)
             getLogUrl getLogInit start)
    by (repeat constructor).
  run.
Defined.

(** [GET /logs/5] answered with 200. *)
Lemma request_returns_only_success_witness :
  200 <= status ok200 < 300
  /\ exists url init w1,
       createFetchParams stringifyUndefined
         (sampleApi (answering ok200) None) getLog None start
       = (Normal (url, init), w1)
       /\ fetch oneAttempt (sampleApi (answering ok200) None) url init w1
          = (Normal ok200, afterOneCall).
Proof.
  apply (request_returns_only_success stringifyUndefined oneAttempt
           (sampleApi (answering ok200) None) getLog None start
           ok200 afterOneCall).
  run.
Defined.

(** [GET /logs/5] with retries disabled, aborted by the timeout. *)
Lemma request_closed_run_witness :
  exists url init,
    createFetchParams stringifyUndefined
      (sampleApi (failing AbortError) retriesDisabled) getLog None start
    = (Normal (url, init), start)
    /\ request stringifyUndefined twoAttempts
         (sampleApi (failing AbortError) retriesDisabled) getLog None start
       = (Throw (FetchError TimeoutError interceptorsFailed), afterOneCall).
Proof.
  destruct (request_closed_run stringifyUndefined twoAttempts
              (sampleApi (failing AbortError) retriesDisabled)
              getLog None start)
    as (url & init & Hparams & _);
    [reflexivity | reflexivity | left; reflexivity |].
  exists url, init. split; [exact Hparams | run].
Defined.

(** Two values for [include_fields]. *)
Lemma array_value_repeats_key_witness :
  querystringSingleKey "fields" (JArray [JString "a b"; JNumber 2])
  = "fields=a%20b&fields=2".
Proof.
  destruct (array_value_repeats_key "fields" [JString "a b"; JNumber 2])
    as (-> & _); [discriminate|].
  run.
Defined.

(** One plain parameter, one left out, one joined by commas. *)
Lemma applyQueryParams_result_witness :
  let requestParameters : gmap string JsValue :=
    {[ "page" := JNumber 2;
       "fields" := JArray [JString "name"; JString "email"] ]} in
  let keys :=
    [ ("page", {| isArray := None; isCollectionFormatMulti := None;
                  collectionFormat := None |});
      ("per_page", {| isArray := None; isCollectionFormatMulti := None;
                      collectionFormat := None |});
      ("fields", {| isArray := Some true; isCollectionFormatMulti := None;
                    collectionFormat := Some csv |}) ] in
  let m : gmap string JsValue :=
    {[ "page" := JNumber 2; "fields" := JString "name,email" ]} in
  applyQueryParams requestParameters keys = Normal m
  /\ m !! "per_page" = None
  /\ exists items,
       get requestParameters "fields" = JArray items
       /\ m !! "fields" = Some (JString (joinArray "," items)).
Proof.
  intros requestParameters keys m.
  assert (Hrun : applyQueryParams requestParameters keys = Normal m) by run.
  destruct (applyQueryParams_result requestParameters keys m Hrun)
    as [_ Hentries].
  assert (Hnd : List.NoDup (map fst keys))
    by (repeat constructor; cbn; intuition discriminate).
  split; [exact Hrun|]. split.
  - destruct (Hentries Hnd "per_page"
                {| isArray := None; isCollectionFormatMulti := None;
                   collectionFormat := None |})
      as [Hplain _]; [right; left; reflexivity|].
    rewrite Hplain by (left; reflexivity). reflexivity.
  - destruct (Hentries Hnd "fields"
                {| isArray := Some true; isCollectionFormatMulti := None;
                   collectionFormat := Some csv |})
      as [_ Hjoined]; [right; right; left; reflexivity|].
    apply Hjoined; reflexivity.
Defined.

(** No key id: nothing is sent. *)
Lemma KeysManager_requires_kid_witness :
  KeysManager_get stringifyUndefined oneAttempt parseBraces noHeaders
    (sampleApi (answering ok200) None) ∅ None start
  = (Throw (RequiredError "kid"
              "Required parameter requestParameters.kid was null or undefined."),
     start).
Proof.
  destruct (KeysManager_requires_kid stringifyUndefined oneAttempt
              parseBraces noHeaders (sampleApi (answering ok200) None)
              ∅ None start)
    as [Hget _]; [reflexivity | exact Hget].
Defined.

Example signing_key_path :
  signingKeyPath "/keys/signing/{kid}/revoke" oneKey
  = "/keys/signing/a%2Fb%3Fc/revoke".
Proof. run. Qed.

(** The same key id with and without another parameter. *)
Lemma signingKeyPath_injective_witness :
  toString (get oneKey "kid")
  = toString (get (<[ "include" := JBool true ]> oneKey) "kid").
Proof.
  apply (signingKeyPath_injective oneKey
           (<[ "include" := JBool true ]> oneKey)).
  left. run.
Defined.

(** The signing keys of the tenant, answered with 200 and an empty
    object. *)
Lemma KeysManager_envelope_witness :
  exists response,
    request stringifyUndefined oneAttempt (sampleApi (answering ok200) None)
      (describe "/keys/signing" "GET") None start
    = (Normal response,
       {| env := tt; nextId := 1; timers := [];
          transportCalls :=
            [("https://tenant.example.com/api/v2/keys/signing",
              guarded getLogInit start)];
          parseErrorCalls := [] |})
    /\ 200 <= status response < 300
    /\ parseBraces (body response) = Normal (JObject [])
    /\ 200 = status response
    /\ "OK" = statusText response
    /\ (∅ : gmap string string) = noHeaders response.
Proof.
  destruct (KeysManager_envelope stringifyUndefined oneAttempt parseBraces
              noHeaders (sampleApi (answering ok200) None) oneKey None start)
    as (_ & _ & HgetAll & _).
  apply (HgetAll {| data := JObject []; ar_headers := ∅; ar_status := 200;
                    ar_statusText := "OK" |}).
  run.
Defined.

End CoverageExamples.
